(** * XAI algorithms: Grad-CAM, occlusion sensitivity and the region grid

    A shallow embedding of [xai/algorithms.py].  Arrays are row-major
    lists, integer arithmetic is done in [Z], Python exceptions are an
    explicit result type, and the arrays that the code mutates in place
    live in an explicit store of buffers. *)

From Stdlib Require Import ZArith List Lia Bool String Sorted.
From Stdlib Require Import Floats.SpecFloat.
From stdpp Require Import base numbers list.

Local Open Scope Z_scope.

(** ** Python exceptions *)

Inductive exn : Type :=
  | ValueError
  | IndexError
  | ZeroDivisionError.

Inductive result (A : Type) : Type :=
  | Ok (a : A)
  | Raise (e : exn).

Arguments Ok {A} a.
Arguments Raise {A} e.

Definition rbind {A B} (r : result A) (k : A -> result B) : result B :=
  match r with
  | Ok a => k a
  | Raise e => Raise e
  end.

(** ** The numpy operations that [build_grid] uses *)

Module Np.

(** [arange_loop fuel cur stop step]: the values [cur], [cur + step], ...
    that stay strictly on the near side of [stop]. *)
Fixpoint arange_loop (fuel : nat) (cur stop step : Z) : list Z :=
  match fuel with
  | O => []
  | S fuel' =>
      if (if 0 <? step then cur <? stop else stop <? cur)
      then cur :: arange_loop fuel' (cur + step) stop step
      else []
  end.

(** [np.arange(start, stop, step)] on integers; a zero step raises. *)
Definition arange (start stop step : Z) : result (list Z) :=
  if step =? 0 then Raise ZeroDivisionError
  else Ok (arange_loop (Z.abs_nat (stop - start)) start stop step).

(** [np.meshgrid(xs, ys)] with the default ['xy'] indexing: both outputs
    have [length ys] rows and [length xs] columns.  numpy ravels its
    arguments first, so a caller holding a 2-D array passes [ravel] of
    it. *)
Definition meshgrid (xs ys : list Z) : list (list Z) * list (list Z) :=
  (map (fun _ => xs) ys, map (fun y => map (fun _ => y) xs) ys).

Definition ravel (a : list (list Z)) : list Z := concat a.

(** [np.stack([a, b], axis=2)] of two 2-D arrays of one shape. *)
Definition stack_axis2 (a b : list (list Z)) : list (list (list Z)) :=
  zip_with (zip_with (fun x y => [x; y])) a b.

Fixpoint rows_of_2 (l : list Z) : list (list Z) :=
  match l with
  | x :: y :: rest => [x; y] :: rows_of_2 rest
  | _ => []
  end.

(** [a.reshape([-1, 2])] of a 3-D array whose last axis has length 2. *)
Definition reshape_m1_2 (a : list (list (list Z))) : list (list Z) :=
  rows_of_2 (concat (concat a)).

(** Element-wise [a + b] of two 2-D arrays of one shape. *)
Definition add2 (a b : list (list Z)) : list (list Z) :=
  zip_with (zip_with Z.add) a b.

(** [np.concatenate([a, b], axis=1)]. *)
Definition concatenate_axis1 (a b : list (list Z)) : list (list Z) :=
  zip_with (@app Z) a b.

(** [np.zeros((rows, cols))], cells holding 0. *)
Definition zeros2 (rows cols : nat) : list (list Z) :=
  replicate rows (replicate cols 0).

End Np.

(** ** [build_grid] *)

Definition image_shape_t : Type := Z * Z * Z.

Definition build_grid (stride size : Z) (image_shape : image_shape_t)
  : result (list (list Z)) :=
  let '(height, width, _) := image_shape in
  rbind (Np.arange 0 width (size * stride)) (fun start_cx =>
  rbind (Np.arange 0 height (size * stride)) (fun start_cy =>
  let '(start_cx, start_cy) := Np.meshgrid start_cx start_cy in
  let '(box_widths, box_center_x) := Np.meshgrid [size] (Np.ravel start_cx) in
  let '(box_heights, box_center_y) := Np.meshgrid [size] (Np.ravel start_cy) in
  let box_start := Np.reshape_m1_2 (Np.stack_axis2 box_center_x box_center_y) in
  let box_sizes := Np.reshape_m1_2 (Np.stack_axis2 box_widths box_heights) in
  let box_end := Np.add2 box_start box_sizes in
  let boxes := Np.concatenate_axis1 box_start box_end in
  Ok boxes)).

(** ** [print_bboxes] *)

(** A box is a row of four integers, [bb[0]] to [bb[3]]. *)
Definition bbox : Type := Z * Z * Z * Z.

(** A bound [i] of a Python slice over an axis of length [len]: negative
    bounds count from the end, and every bound is clamped to the axis. *)
Definition slice_bound (len i : Z) : Z :=
  if i <? 0 then Z.max 0 (i + len) else Z.min i len.

(** Whether index [i] lies in the slice [a:b] of an axis of length [len]. *)
Definition in_slice (len a b i : Z) : bool :=
  (slice_bound len a <=? i) && (i <? slice_bound len b).

(** Whether the assignment [img[bb[0]:bb[2], bb[1]:bb[3]] = v] writes the
    cell at row [r] and column [c] of an image of [rows] by [cols] cells. *)
Definition covers (rows cols : nat) (bb : bbox) (r c : nat) : bool :=
  let '(b0, b1, b2, b3) := bb in
  in_slice (Z.of_nat rows) b0 b2 (Z.of_nat r)
  && in_slice (Z.of_nat cols) b1 b3 (Z.of_nat c).

(** [img[bb[0]:bb[2], bb[1]:bb[3]] = v]. *)
Definition assign_box (rows cols : nat) (img : list (list Z)) (bb : bbox) (v : Z)
  : list (list Z) :=
  imap (fun r row =>
          imap (fun c x => if covers rows cols bb r c then v else x) row) img.

(** The loop [for idx, bb in enumerate(bboxes)], started at index [idx]. *)
Fixpoint print_bboxes_loop (rows cols : nat) (idx : Z) (bboxes : list bbox)
    (bboxes_img : list (list Z)) : list (list Z) :=
  match bboxes with
  | [] => bboxes_img
  | bb :: rest =>
      print_bboxes_loop rows cols (idx + 1) rest
        (assign_box rows cols bboxes_img bb (idx + 1))
  end.

(** [np.zeros(shape)] makes float64 cells; the loop stores the integers
    [idx + 1] in them, which float64 holds exactly, so the cells are
    modelled by their integer values. *)
Definition print_bboxes (bboxes : list bbox) (shape : nat * nat) : list (list Z) :=
  let '(rows, cols) := shape in
  print_bboxes_loop rows cols 0 bboxes (Np.zeros2 rows cols).

(** The cell at row [r], column [c] of a 2-D array. *)
Definition cell2 {A} (img : list (list A)) (r c : nat) : option A :=
  match img !! r with
  | Some row => row !! c
  | None => None
  end.

(** ** Floating-point cells

    Array cells are IEEE 754 binary floats, [spec_float] of the standard
    library; a format is its precision and maximal exponent.  numpy's
    float64 is [binary64]; the tensors of a Keras model have the model's
    own format. *)

Module Flt.

Definition nan : spec_float := S754_nan.
Definition zero : spec_float := S754_zero false.

Definition is_nan (x : spec_float) : bool :=
  match x with S754_nan => true | _ => false end.

Definition is_finite (x : spec_float) : bool :=
  match x with S754_zero _ | S754_finite _ _ _ => true | _ => false end.

(** The greater of two cells; a NaN operand gives NaN, as in numpy's
    [max] and in [tf.maximum] and [tf.math.reduce_max]. *)
Definition maximum (x y : spec_float) : spec_float :=
  match SFcompare x y with
  | None => nan
  | Some Lt => y
  | Some _ => x
  end.

(** Integer to float, rounded to nearest even. *)
Definition of_Z (prec emax : Z) (z : Z) : spec_float :=
  binary_normalize prec emax z 0 false.

(** The integer part of a finite cell, rounded toward zero. *)
Definition trunc (x : spec_float) : option Z :=
  match x with
  | S754_zero _ => Some 0
  | S754_finite s m e => Some (cond_Zopp s (Z.shiftl (Z.pos m) e))
  | _ => None
  end.

(** Numeric test [0 <= x <= 1]. *)
Definition in_unit (prec emax : Z) (x : spec_float) : bool :=
  SFleb zero x && SFleb x (SFone prec emax).

End Flt.

(** numpy's float64. *)
Module F64.
Definition prec : Z := 53.
Definition emax : Z := 1024.
Definition sub := SFsub prec emax.
Definition mul := SFmul prec emax.
Definition div := SFdiv prec emax.
Definition of_Z := Flt.of_Z prec emax.
Definition one : spec_float := SFone prec emax.
End F64.

(** A cell of a [uint8] array.  [astype(np.uint8)] converts a float as C
    does: the value is truncated toward zero, and when the truncated value
    does not fit in a byte, or the float is NaN or infinite, the resulting
    byte is not specified. *)
Inductive u8 : Type :=
  | U8 (v : Z)
  | U8_unspecified.

Definition u8_of_float (x : spec_float) : u8 :=
  match Flt.trunc x with
  | Some z => if (0 <=? z) && (z <=? 255) then U8 z else U8_unspecified
  | None => U8_unspecified
  end.

(** ** Shapes and row-major positions *)

Abbreviation shape := (list Z).

Definition size_of (s : shape) : Z := fold_right Z.mul 1 s.

(** The multi-index of the cell at flat position [p] of an array of shape [s]. *)
Fixpoint unravel (s : shape) (p : Z) : list Z :=
  match s with
  | [] => []
  | _ :: s' => (p / size_of s') :: unravel s' (p mod size_of s')
  end.

(** The flat position of a multi-index; coordinates beyond the rank of [s]
    are ignored. *)
Fixpoint ravel_index (s : shape) (idx : list Z) : Z :=
  match s, idx with
  | _ :: s', i :: idx' => i * size_of s' + ravel_index s' idx'
  | _, _ => 0
  end.

(** [imap] with a binary counter. *)
Fixpoint imapZ {A B} (f : Z -> A -> B) (i : Z) (l : list A) : list B :=
  match l with
  | [] => []
  | x :: l' => f i x :: imapZ f (i + 1) l'
  end.

Definition shape_eqb (s1 s2 : shape) : bool := bool_decide (s1 = s2).

(** ** The store of float buffers

    Every float array is a view of a buffer of the store; two arrays with
    the same buffer address are aliases. *)

Abbreviation buffer := (list spec_float).
Abbreviation store := (list buffer).

Record ndarray : Type := NdArray { nd_buf : nat; nd_shape : shape }.

Definition M (A : Type) : Type := store -> result A * store.

Definition ret {A} (a : A) : M A := fun st => (Ok a, st).
Definition raise {A} (e : exn) : M A := fun st => (Raise e, st).
Definition bind {A B} (m : M A) (k : A -> M B) : M B :=
  fun st =>
    match m st with
    | (Ok a, st') => k a st'
    | (Raise e, st') => (Raise e, st')
    end.
Definition lift {A} (r : result A) : M A := fun st => (r, st).

Notation "x <- m ;; k" := (bind m (fun x => k))
  (at level 100, m at next level, right associativity).
Notation "m ;;; k" := (bind m (fun _ => k))
  (at level 100, right associativity).

Definition alloc (b : buffer) : M nat := fun st => (Ok (length st), st ++ [b]).
Definition load (a : nat) : M buffer := fun st => (Ok (default [] (st !! a)), st).
Definition save (a : nat) (b : buffer) : M unit := fun st => (Ok tt, <[a := b]> st).

(** The loop [for x in xs: body(x)]. *)
Fixpoint for_each {A} (xs : list A) (body : A -> M unit) : M unit :=
  match xs with
  | [] => ret tt
  | x :: xs' => body x ;;; for_each xs' body
  end.

(** ** The region partition and its masks *)

(** The partition is only read: an array of integer labels. *)
Record zones : Type := Zones { z_shape : shape; z_data : list Z }.

Record mask : Type := Mask { m_shape : shape; m_data : list bool }.

Fixpoint insert_sorted (x : Z) (l : list Z) : list Z :=
  match l with
  | [] => [x]
  | y :: l' =>
      if x <? y then x :: l
      else if x =? y then l
      else y :: insert_sorted x l'
  end.

(** [np.unique(a)]: the distinct values of [a], ascending. *)
Definition np_unique (a : zones) : list Z :=
  fold_left (fun acc x => insert_sorted x acc) (z_data a) [].

(** [a == u_val]. *)
Definition zones_eq (a : zones) (u_val : Z) : mask :=
  Mask (z_shape a) (map (fun x => x =? u_val) (z_data a)).

(** Whether a boolean index of shape [ms] fits an array of shape [vs]: its
    axes must equal the leading axes of the array. *)
Definition mask_fits (ms vs : shape) : bool :=
  shape_eqb ms (take (length ms) vs).

(** Whether the mask selects the cell of multi-index [idx]. *)
Definition mask_at (m : mask) (idx : list Z) : bool :=
  default false (m_data m !! Z.to_nat (ravel_index (m_shape m) idx)).

(** ** numpy operations on stored arrays *)

(** [a.reshape(s)] of a contiguous array: a view of the same buffer. *)
Definition np_reshape (a : ndarray) (s : shape) : M ndarray :=
  if size_of (nd_shape a) =? size_of s
  then ret (NdArray (nd_buf a) s)
  else raise ValueError.

(** [np.copy(a)]: a fresh buffer with the cells of [a]. *)
Definition np_copy (a : ndarray) : M ndarray :=
  b <- load (nd_buf a) ;;
  p <- alloc b ;;
  ret (NdArray p (nd_shape a)).

(** [np.zeros(s, dtype=np.float64)]. *)
Definition np_zeros (s : shape) : M ndarray :=
  p <- alloc (replicate (Z.to_nat (size_of s)) Flt.zero) ;;
  ret (NdArray p s).

(** [a[:, :, j][m] = v]: in the view that fixes index [j] on the third
    axis, the cells selected by the boolean index [m] are set to [v].  The
    view has the shape of [a] without its third axis. *)
Definition setitem_axis2_mask (a : ndarray) (j : Z) (m : mask) (v : spec_float)
  : M unit :=
  match nd_shape a !! 2%nat with
  | None => raise IndexError
  | Some n =>
      if negb ((0 <=? j) && (j <? n)) then raise IndexError
      else if negb (mask_fits (m_shape m) (delete 2%nat (nd_shape a)))
      then raise IndexError
      else
        b <- load (nd_buf a) ;;
        save (nd_buf a)
          (imapZ (fun p x =>
                    let idx := unravel (nd_shape a) p in
                    if bool_decide (idx !! 2%nat = Some j)
                       && mask_at m (delete 2%nat idx)
                    then v else x) 0 b)
  end.

(** [a.max()]; NaN cells propagate. *)
Definition np_max (a : ndarray) : M spec_float :=
  b <- load (nd_buf a) ;;
  match b with
  | [] => raise ValueError
  | x :: b' => ret (fold_left Flt.maximum b' x)
  end.

(** [a /= d] and [a *= k], in place. *)
Definition idiv (a : ndarray) (d : spec_float) : M unit :=
  b <- load (nd_buf a) ;; save (nd_buf a) (map (fun x => F64.div x d) b).

Definition imul (a : ndarray) (k : spec_float) : M unit :=
  b <- load (nd_buf a) ;; save (nd_buf a) (map (fun x => F64.mul x k) b).

(** A [uint8] array, returned by value. *)
Record u8array : Type := U8Array { u8_shape : shape; u8_data : list u8 }.

Definition astype_uint8 (a : ndarray) : M u8array :=
  b <- load (nd_buf a) ;; ret (U8Array (nd_shape a) (map u8_of_float b)).

(** [np.argmax(v)]: the first position of the greatest cell, a NaN
    counting as greatest. *)
Definition beats (x best : spec_float) : bool :=
  negb (Flt.is_nan best) && (Flt.is_nan x || SFltb best x).

Fixpoint argmax_loop (best_i : nat) (best : spec_float) (i : nat)
    (l : list spec_float) : nat :=
  match l with
  | [] => best_i
  | x :: l' =>
      if beats x best then argmax_loop i x (S i) l'
      else argmax_loop best_i best (S i) l'
  end.

Definition np_argmax (v : list spec_float) : result nat :=
  match v with
  | [] => Raise ValueError
  | x :: v' => Ok (argmax_loop 0 x 1 v')
  end.

(** [v[i]]. *)
Definition getitem (v : list spec_float) (i : nat) : result spec_float :=
  match v !! i with
  | Some x => Ok x
  | None => Raise IndexError
  end.

(** ** [occlusion_test] *)

(** The model is external: [predict] maps the cells of a batch of one
    image to the probability vector of that image, the row
    [model.predict(batch)[0]], taken as float64 cells.  It reads its
    argument and changes nothing. *)
Definition predictor : Type := buffer -> list spec_float.

Definition model_predict (model : predictor) (batch : ndarray)
  : M (list spec_float) :=
  b <- load (nd_buf batch) ;; ret (model b).

(** Lines 98 to 112: one turn of the loop, for the region [u_val]. *)
Definition occlusion_body (model : predictor) (occlusion_zones : zones)
    (batch_img heatmap : ndarray) (original_prop : list spec_float)
    (index_object : nat) (u_val : Z) : M unit :=
  let mask := zones_eq occlusion_zones u_val in
  img_ocluded <- np_copy batch_img ;;
  setitem_axis2_mask img_ocluded 0 mask Flt.zero ;;;
  setitem_axis2_mask img_ocluded 1 mask Flt.zero ;;;
  setitem_axis2_mask img_ocluded 2 mask Flt.zero ;;;
  oclussion_prop <- model_predict model img_ocluded ;;
  p0 <- lift (getitem original_prop index_object) ;;
  p1 <- lift (getitem oclussion_prop index_object) ;;
  let oclussion_prop := F64.div (F64.sub p0 p1) p0 in
  setitem_axis2_mask heatmap 0 mask oclussion_prop ;;;
  setitem_axis2_mask heatmap 1 mask oclussion_prop ;;;
  setitem_axis2_mask heatmap 2 mask oclussion_prop.

(** Lines 87 to 112: the baseline inference and the loop over the regions;
    the result is the float64 heatmap holding the relative drops. *)
Definition occlusion_heatmap (batch_img : ndarray) (model : predictor)
    (occlusion_zones : zones) : M ndarray :=
  batch_img <- np_reshape batch_img [1; 224; 224; 3] ;;
  batch_img <- np_copy batch_img ;;
  original_prop <- model_predict model batch_img ;;
  index_object <- lift (np_argmax original_prop) ;;
  heatmap <- np_zeros (take 3 (nd_shape batch_img)) ;;
  for_each (np_unique occlusion_zones)
    (occlusion_body model occlusion_zones batch_img heatmap original_prop
       index_object) ;;;
  ret heatmap.

(** Lines 114 to 116: division by the maximum, scaling and the cast. *)
Definition normalize_to_uint8 (heatmap : ndarray) : M u8array :=
  m <- np_max heatmap ;;
  idiv heatmap m ;;;
  imul heatmap (F64.of_Z 255) ;;;
  astype_uint8 heatmap.

(** The whole function; the array it returns is of dtype [uint8]. *)
Definition occlusion_test (batch_img : ndarray) (model : predictor)
    (occlusion_zones : zones) : M u8array :=
  heatmap <- occlusion_heatmap batch_img model occlusion_zones ;;
  normalize_to_uint8 heatmap.

(** ** [grad_cam] *)

(** A TensorFlow tensor: immutable, a shape and its cells in row-major
    order. *)
Record tensor : Type := Tensor { t_shape : list nat; t_data : list spec_float }.

Section GradCam.

(** The float format of the model's tensors. *)
Variables prec emax : Z.

(** The type of the input batch; [grad_cam] only hands it to the model. *)
Variable image : Type.

(** The model is external.  [layer_output name] is the output of the
    layer called [name] as a function of the input, when the model has
    such a layer; [model_output] is the prediction, of shape
    [batch, classes]; [tape_gradient name img k] is the gradient, taken by
    the tape, of the class channel [preds[:, k]] with respect to the
    output of the layer [name] on input [img]. *)
Record keras_model : Type := KerasModel {
  layer_output : string -> option (image -> tensor);
  model_output : image -> tensor;
  tape_gradient : string -> image -> nat -> tensor
}.

(** [tf.keras.models.Model([model.inputs],
    [model.get_layer(name).output, model.output])]; [get_layer] raises
    [ValueError] for an unknown name. *)
Definition make_grad_model (model : keras_model) (name : string)
  : result (image -> tensor * tensor) :=
  match layer_output model name with
  | None => Raise ValueError
  | Some f => Ok (fun img => (f img, model_output model img))
  end.

(** [preds[0]]. *)
Definition preds_row0 (preds : tensor) : result (list spec_float) :=
  match t_shape preds with
  | [b; n] =>
      match b with
      | O => Raise IndexError
      | S _ => Ok (take n (t_data preds))
      end
  | _ => Raise ValueError
  end.

(** [preds[:, pred_index]] exists when [pred_index] is a class. *)
Definition class_channel_ok (preds : tensor) (pred_index : nat) : result unit :=
  match t_shape preds with
  | [_; n] => if (pred_index <? n)%nat then Ok tt else Raise IndexError
  | _ => Raise ValueError
  end.

(** [tf.reduce_mean(g, axis=(0, 1, 2))] of a 4-D tensor: per channel, the
    sum of the cells divided by their number. *)
Definition reduce_mean_012 (g : tensor) : result (list spec_float) :=
  match t_shape g with
  | [b; h; w; c] =>
      let n := (b * h * w)%nat in
      let rows := reshape (replicate n c) (t_data g) in
      let sums := fold_left (zip_with (SFadd prec emax)) rows
                    (replicate c Flt.zero) in
      Ok (map (fun s => SFdiv prec emax s (Flt.of_Z prec emax (Z.of_nat n))) sums)
  | _ => Raise ValueError
  end.

(** [t[0]] of a 4-D tensor. *)
Definition first_of_batch (t : tensor) : result tensor :=
  match t_shape t with
  | [b; h; w; c] =>
      match b with
      | O => Raise IndexError
      | S _ => Ok (Tensor [h; w; c] (take (h * w * c) (t_data t)))
      end
  | _ => Raise ValueError
  end.

Definition dot (a p : list spec_float) : spec_float :=
  fold_left (SFadd prec emax) (zip_with (SFmul prec emax) a p) Flt.zero.

(** [a @ p[..., tf.newaxis]] of a 3-D tensor and a vector: the last axis
    of [a] is contracted with [p]. *)
Definition matmul_vec (a : tensor) (p : list spec_float) : result tensor :=
  match t_shape a with
  | [h; w; c] =>
      if (c =? length p)%nat
      then Ok (Tensor [h; w; 1%nat]
                 (map (fun row => dot row p)
                    (reshape (replicate (h * w) c) (t_data a))))
      else Raise ValueError
  | _ => Raise ValueError
  end.

(** [tf.squeeze(t)]: every axis of length 1 is dropped. *)
Definition squeeze (t : tensor) : tensor :=
  Tensor (filter (fun d => d <> 1%nat) (t_shape t)) (t_data t).

(** [tf.math.reduce_max(t)]. *)
Definition reduce_max (t : tensor) : spec_float :=
  fold_left Flt.maximum (t_data t) (S754_infinity true).

(** [tf.maximum(t, 0) / m]. *)
Definition clip_and_divide (t : tensor) (m : spec_float) : tensor :=
  Tensor (t_shape t)
    (map (fun x => SFdiv prec emax (Flt.maximum x Flt.zero) m) (t_data t)).

(** Lines 26 to 51: the map before normalization. *)
Definition weighted_activation (img_array : image) (model : keras_model)
    (last_conv_layer_name : string) (pred_index : option nat)
  : result tensor :=
  rbind (make_grad_model model last_conv_layer_name) (fun grad_model =>
  let '(last_conv_layer_output, preds) := grad_model img_array in
  rbind (match pred_index with
         | None => rbind (preds_row0 preds) np_argmax
         | Some i => Ok i
         end) (fun pred_index =>
  rbind (class_channel_ok preds pred_index) (fun _ =>
  let grads := tape_gradient model last_conv_layer_name img_array pred_index in
  rbind (reduce_mean_012 grads) (fun pooled_grads =>
  rbind (first_of_batch last_conv_layer_output) (fun last_conv_layer_output =>
  rbind (matmul_vec last_conv_layer_output pooled_grads) (fun heatmap =>
  Ok (squeeze heatmap))))))).

Definition grad_cam (img_array : image) (model : keras_model)
    (last_conv_layer_name : string) (pred_index : option nat)
  : result tensor :=
  rbind (weighted_activation img_array model last_conv_layer_name pred_index)
    (fun heatmap =>
  let heatmap := clip_and_divide heatmap (reduce_max heatmap) in
  Ok heatmap).

End GradCam.

Arguments KerasModel {image}.
Arguments layer_output {image}.
Arguments model_output {image}.
Arguments tape_gradient {image}.
Arguments grad_cam prec emax {image}.
Arguments weighted_activation prec emax {image}.

(** ** Reference definitions used by the statements *)

(** [ceil(a / b)] for a positive [b]. *)
Definition ceil_div (a b : Z) : Z := - ((- a) / b).

(** Python's [range(0, extent, step)] for a positive [step], in closed
    form: the multiples [0], [step], [2 * step], ... below [extent]. *)
Definition py_range (extent step : Z) : list Z :=
  map (fun i => Z.of_nat i * step) (seq 0 (Z.to_nat (ceil_div extent step))).

(** The box of size [size] whose origin is [(ox, oy)]. *)
Definition box_at (size ox oy : Z) : list Z := [ox; oy; ox + size; oy + size].

(** The position in the sequence of the last box that covers a cell. *)
Fixpoint last_cover (rows cols : nat) (bboxes : list bbox) (r c : nat)
  : option nat :=
  match bboxes with
  | [] => None
  | bb :: rest =>
      match last_cover rows cols rest r c with
      | Some i => Some (S i)
      | None => if covers rows cols bb r c then Some O else None
      end
  end.

(** The rows [[x; y]] of two flat arrays, and the boxes that lines 69 to 73
    of [build_grid] make of the flat origin arrays. *)
Definition pair_rows (xs ys : list Z) : list (list Z) :=
  zip_with (fun x y => [x; y]) xs ys.

Definition boxes_of (size : Z) (xs ys : list Z) : list (list Z) :=
  Np.concatenate_axis1 (pair_rows xs ys)
    (Np.add2 (pair_rows xs ys)
       (pair_rows (map (fun _ => size) xs) (map (fun _ => size) ys))).

(** ** Assertions about runs *)

(** [triple P m Q]: from a store that satisfies [P], the run of [m] ends
    with a result and a store that satisfy [Q]. *)
Definition triple {A} (P : store -> Prop) (m : M A)
    (Q : result A -> store -> Prop) : Prop :=
  forall st, P st -> Q (fst (m st)) (snd (m st)).

(** The run returns, and [Q] holds of what it returns. *)
Definition returning {A} (Q : A -> store -> Prop) : result A -> store -> Prop :=
  fun r st => match r with Ok a => Q a st | Raise _ => False end.

(** Whatever the outcome, the store satisfies [I]; a returned value
    satisfies [Q]. *)
Definition keeping {A} (I : store -> Prop) (Q : A -> Prop)
  : result A -> store -> Prop :=
  fun r st => I st /\ match r with Ok a => Q a | Raise _ => True end.

(** The store [st] still begins with the buffers of [s0], unchanged. *)
Definition extends (s0 st : store) : Prop := exists ext, st = s0 ++ ext.

(** The buffer at address [h] holds [n] cells. *)
Definition holds (h n : nat) (st : store) : Prop :=
  length (default [] (st !! h)) = n.

(** Cells at or below zero, by their sign: a zero, a negative finite cell
    or minus infinity. *)
Definition nonpos (x : spec_float) : bool :=
  match x with
  | S754_zero _ => true
  | S754_finite s _ _ => s
  | S754_infinity s => s
  | S754_nan => false
  end.

Definition is_zero (x : spec_float) : bool :=
  match x with S754_zero _ => true | _ => false end.

(** A shift record that lost no bit: neither the round bit nor the sticky
    bit is set. *)
Definition is_exact (mrs : shr_record) : bool :=
  negb (shr_r mrs) && negb (shr_s mrs).

(** A mantissa [n] at exponent [e <= 0] whose value [n * 2 ^ e], together
    with the bits already shifted out, does not exceed 1: the mantissa is
    below [2 ^ (- e)], or equal to it with no bit lost ([ex]). *)
Definition below_one (n e : Z) (ex : bool) : Prop :=
  0 <= n /\ e <= 0 /\ (n < 2 ^ (- e) \/ (n = 2 ^ (- e) /\ ex = true)).

(** The cell 1.0 of a format. *)
Definition one_of (prec : Z) : spec_float :=
  S754_finite false (Z.to_pos (2 ^ (prec - 1))) (1 - prec).

(** A finite cell that is a valid float of the format. *)
Definition good_cell (prec emax : Z) (x : spec_float) : Prop :=
  Flt.is_finite x = true /\ valid_binary prec emax x = true.

(** ** Example inputs *)

Module Ex.

(** The float64 cells 0.5 and 0.25. *)
Definition half : spec_float := S754_finite false 4503599627370496 (-53).
Definition quarter : spec_float := S754_finite false 4503599627370496 (-54).

(** A 224 x 224 x 3 image, every cell 1.0, as the only buffer of a store. *)
Definition img : buffer := replicate (Z.to_nat 150528) F64.one.
Definition st0 : store := [img].
Definition batch : ndarray := NdArray 0 [224; 224; 3].

(** A model of two classes: class 0 has probability 0.5, and 0.25 once
    the first cell of the image is black. *)
Definition toy : predictor := fun b =>
  match b with
  | S754_zero _ :: _ => [quarter; quarter]
  | _ => [half; quarter]
  end.

(** A partition of shape (1, 224) whose only identifier is 0. *)
Definition zones_row_of_zeros : zones := Zones [1; 224] (replicate 224 0).

(** A partition of shape (224, 224) with the single region 1, which
    covers the whole image. *)
Definition zones_whole_image : zones :=
  Zones [224; 224] (replicate (Z.to_nat 50176) 1).

(** A partition without any cell. *)
Definition zones_empty : zones := Zones [0] [].

(** float32 cells. *)
Definition f32 (z : Z) : spec_float := Flt.of_Z 24 128 z.

(** A model whose layer ["conv"] has a 2 x 2 output of 2 channels, with
    three classes; the gradient of class [k] is made to depend on [k]. *)
Definition cnn : keras_model unit :=
  KerasModel
    (fun name =>
       if String.eqb name "conv"
       then Some (fun _ => Tensor [1; 2; 2; 2]%nat
                             (map f32 [1; 2; 3; 4; -5; 6; 0; 0]))
       else None)
    (fun _ => Tensor [1; 3]%nat (map f32 [1; 5; 2]))
    (fun _ _ k => Tensor [1; 2; 2; 2]%nat
                    (map f32 [1; 0; 1; 0; 1; 0; 1; Z.of_nat k])).

(** The same layer with every activation zero. *)
Definition cnn_dark : keras_model unit :=
  KerasModel
    (fun name =>
       if String.eqb name "conv"
       then Some (fun _ => Tensor [1; 2; 2; 2]%nat (replicate 8 Flt.zero))
       else None)
    (fun _ => Tensor [1; 3]%nat (map f32 [1; 5; 2]))
    (fun _ _ k => Tensor [1; 2; 2; 2]%nat
                    (map f32 [1; 0; 1; 0; 1; 0; 1; Z.of_nat k])).

End Ex.

(** ** Reference definitions for the further properties *)

(** Whether the pixel [(px, py)] lies in a box [[x0; y0; x1; y1]], the
    ends excluded. *)
Definition in_box (b : list Z) (px py : Z) : Prop :=
  match b with
  | [x0; y0; x1; y1] => x0 <= px < x1 /\ y0 <= py < y1
  | _ => False
  end.

(** The number of origins that [build_grid] puts along an axis. *)
Definition origins (extent step : Z) : nat := Z.to_nat (ceil_div extent step).

(** A model whose layer has a 1 x 2 output of one channel, both
    activations negative, and gradients 1. *)
Definition cnn_negative : keras_model unit :=
  KerasModel
    (fun _ => Some (fun _ => Tensor [1; 1; 2; 1]%nat [Ex.f32 (-1); Ex.f32 (-3)]))
    (fun _ => Tensor [1; 2]%nat [Ex.f32 1; Ex.f32 2])
    (fun _ _ _ => Tensor [1; 1; 2; 1]%nat [Ex.f32 1; Ex.f32 1]).

(** When the run returns, [Q] holds of what it returns; a run that raises
    is not constrained. *)
Definition partial {A} (Q : A -> store -> Prop) : result A -> store -> Prop :=
  fun r st => match r with Ok a => Q a st | Raise _ => True end.

(** Every cell of a buffer satisfies [P], a predicate of the position and
    the cell. *)
Definition cells_ok (P : Z -> spec_float -> Prop) (b : buffer) : Prop :=
  forall (p : nat) (x : spec_float), b !! p = Some x -> P (Z.of_nat p) x.

(** The store has [len] buffers, and the one at address [h] holds [n] cells
    that satisfy [P]. *)
Definition tracked (h n len : nat) (P : Z -> spec_float -> Prop) (st : store)
  : Prop :=
  length st = len
  /\ exists b, st !! h = Some b /\ length b = n /\ cells_ok P b.

(** A finite cell other than zero. *)
Definition is_finite_nonzero (x : spec_float) : bool :=
  match x with S754_finite _ _ _ => true | _ => false end.

(** The column of the cell at flat position [p] of the heatmap, an array of
    shape (1, 224, 224). *)
Definition heatmap_column (p : Z) : option Z := unravel [1; 224; 224] p !! 2%nat.

(** What lines 114 to 116 make of one cell, [m] being the maximum. *)
Definition scaled_byte (m c : spec_float) : u8 :=
  u8_of_float (F64.mul (F64.div c m) (F64.of_Z 255)).

(** A model that does not look at the image. *)
Definition blind : predictor := fun _ => [Ex.half; Ex.quarter].

(** What the cells of the heatmap beyond column 2 hold before lines 114 to
    116: the zero of [np.zeros]. *)
Definition beyond_column_2 (p : Z) (x : spec_float) : Prop :=
  forall j, heatmap_column p = Some j -> 3 <= j -> x = Flt.zero.

(** ** [print_bboxes] on the boxes of [build_grid] *)

(** A row of an array of boxes as [print_bboxes] reads it, by [bb[0]] to
    [bb[3]]; a row of fewer cells has no [bb[3]]. *)
Definition bbox_of_row (row : list Z) : result bbox :=
  match row with
  | b0 :: b1 :: b2 :: b3 :: _ => Ok (b0, b1, b2, b3)
  | _ => Raise IndexError
  end.

Fixpoint bboxes_of_rows (rows : list (list Z)) : result (list bbox) :=
  match rows with
  | [] => Ok []
  | row :: rest =>
      rbind (bbox_of_row row) (fun bb =>
      rbind (bboxes_of_rows rest) (fun bbs => Ok (bb :: bbs)))
  end.

(** [print_bboxes(build_grid(stride, size, image_shape), shape)]. *)
Definition grid_image (stride size : Z) (image_shape : Z * Z * Z)
    (shape : nat * nat) : result (list (list Z)) :=
  rbind (build_grid stride size image_shape) (fun boxes =>
  rbind (bboxes_of_rows boxes) (fun bboxes =>
  Ok (print_bboxes bboxes shape))).

(** * The model at work on small inputs *)

Example build_grid_3x5 :
  build_grid 1 2 (3, 5, 3)
  = Ok [[0; 0; 2; 2]; [2; 0; 4; 2]; [4; 0; 6; 2];
        [0; 2; 2; 4]; [2; 2; 4; 4]; [4; 2; 6; 4]].
Proof. reflexivity. Qed.

Example build_grid_zero_stride : build_grid 0 16 (224, 224, 3) = Raise ZeroDivisionError.
Proof. reflexivity. Qed.

(** A later box overwrites an earlier one; a negative bound counts from the
    end of the axis and a bound past the axis is clamped. *)
Example print_bboxes_4x4 :
  print_bboxes [(0, 0, 2, 2); (1, 1, 3, 5); (-1, 0, 9, 1)] (4%nat, 4%nat)
  = [[1; 1; 0; 0]; [1; 2; 2; 2]; [0; 2; 2; 2]; [3; 0; 0; 0]].
Proof. reflexivity. Qed.

Example np_unique_sorts : np_unique (Zones [2; 3] [3; 1; 2; 3; 1; 0]) = [0; 1; 2; 3].
Proof. reflexivity. Qed.

(** [a[:, :, 1][m] = 1.0] on an array of shape (1, 2, 4, 3), a scaled-down
    batch: the index 1 selects a column, not a channel, and a mask of shape
    (1, 2) selects rows; row 0 gets its column 1 set, in all 3 channels. *)
Example setitem_on_batch :
  setitem_axis2_mask (NdArray 0 [1; 2; 4; 3]) 1 (Mask [1; 2] [true; false])
    F64.one [replicate 24 Flt.zero]
  = (Ok tt,
     [replicate 3 Flt.zero ++ replicate 3 F64.one ++ replicate 18 Flt.zero]).
Proof. reflexivity. Qed.

(** A mask with the shape of the image plane does not fit that view. *)
Example setitem_plane_mask :
  fst (setitem_axis2_mask (NdArray 0 [1; 2; 4; 3]) 1
         (Mask [2; 4] (replicate 8 true)) F64.one [replicate 24 Flt.zero])
  = Raise IndexError.
Proof. reflexivity. Qed.

(** On a heatmap of shape (1, 2, 4) the same assignment writes one cell
    per selected row. *)
Example setitem_on_heatmap :
  setitem_axis2_mask (NdArray 0 [1; 2; 4]) 1 (Mask [1; 2] [true; false])
    F64.one [replicate 8 Flt.zero]
  = (Ok tt, [[Flt.zero; F64.one] ++ replicate 6 Flt.zero]).
Proof. reflexivity. Qed.

Example cast_255 : u8_of_float (F64.of_Z 255) = U8 255.
Proof. reflexivity. Qed.

Example cast_half : u8_of_float (S754_finite false 4503599627370496 (-53)) = U8 0.
Proof. reflexivity. Qed.

Example cast_nan : u8_of_float S754_nan = U8_unspecified.
Proof. reflexivity. Qed.

Example cast_negative : u8_of_float (F64.of_Z (-3)) = U8_unspecified.
Proof. reflexivity. Qed.

(** The map of [Ex.cnn] before normalization is (1.5, 4, -3.5, 0); the
    heatmap is (0.375, 1, 0, 0). *)
Example grad_cam_cnn :
  weighted_activation 24 128 tt Ex.cnn "conv" None
  = Ok (Tensor [2; 2]%nat
          [S754_finite false 12582912 (-23); S754_finite false 8388608 (-21);
           S754_finite true 14680064 (-22); S754_zero false])
  /\ grad_cam 24 128 tt Ex.cnn "conv" None
     = Ok (Tensor [2; 2]%nat
             [S754_finite false 12582912 (-25); S754_finite false 8388608 (-23);
              S754_zero false; S754_zero false]).
Proof. split; reflexivity. Qed.

Example grad_cam_unknown_layer :
  grad_cam 24 128 tt Ex.cnn "dense" None = Raise ValueError.
Proof. reflexivity. Qed.

Example grad_cam_class_out_of_range :
  grad_cam 24 128 tt Ex.cnn "conv" (Some 3%nat) = Raise IndexError.
Proof. reflexivity. Qed.

(** * Properties of the region grid *)

Section GridFacts.

Lemma ceil_div_step (a b : Z) :
  0 < b -> ceil_div a b = 1 + ceil_div (a - b) b.
Proof.
  intros Hb. unfold ceil_div.
  replace (- (a - b)) with (- a + 1 * b) by lia.
  rewrite Z.div_add by lia. lia.
Qed.

Lemma ceil_div_nonpos (a b : Z) : 0 < b -> a <= 0 -> ceil_div a b <= 0.
Proof.
  intros Hb Ha. unfold ceil_div.
  assert (0 <= (- a) / b) by (apply Z.div_pos; lia). lia.
Qed.

Lemma ceil_div_pos (a b : Z) : 0 < b -> 0 < a -> 0 < ceil_div a b.
Proof.
  intros Hb Ha. unfold ceil_div.
  assert ((- a) / b < 0) by (apply Z.div_lt_upper_bound; lia). lia.
Qed.

(** [ceil_div] is the least integer at or above the quotient. *)
Lemma ceil_div_spec (a b q : Z) :
  0 < b -> (ceil_div a b <= q <-> a <= q * b).
Proof.
  intros Hb. unfold ceil_div. split; intros H.
  - assert (- q <= (- a) / b) by lia.
    assert (b * ((- a) / b) <= - a) by (apply Z.mul_div_le; lia). nia.
  - assert (- q <= (- a) / b) by (apply Z.div_le_lower_bound; lia). lia.
Qed.

Lemma arange_loop_closed (fuel : nat) :
  forall cur stop step,
    0 < step ->
    stop - cur <= Z.of_nat fuel ->
    Np.arange_loop fuel cur stop step =
    map (fun i => cur + Z.of_nat i * step)
      (seq 0 (Z.to_nat (ceil_div (stop - cur) step))).
Proof.
  induction fuel as [|fuel IH]; intros cur stop step Hstep Hfuel.
  - pose proof (ceil_div_nonpos (stop - cur) step Hstep ltac:(lia)).
    replace (Z.to_nat (ceil_div (stop - cur) step)) with O by lia.
    reflexivity.
  - cbn [Np.arange_loop].
    destruct (0 <? step) eqn:E; [|lia].
    destruct (cur <? stop) eqn:Ecur.
    + rewrite IH by lia.
      rewrite (ceil_div_step (stop - cur) step) by lia.
      pose proof (ceil_div_pos (stop - cur) step Hstep ltac:(lia)) as Hpos.
      rewrite (ceil_div_step (stop - cur) step) in Hpos by lia.
      replace (stop - (cur + step)) with (stop - cur - step) by lia.
      replace (Z.to_nat (1 + ceil_div (stop - cur - step) step))
        with (S (Z.to_nat (ceil_div (stop - cur - step) step))) by lia.
      cbn [seq map]. f_equal; [lia|].
      rewrite <- seq_shift, map_map.
      apply map_ext. intros i. lia.
    + pose proof (ceil_div_nonpos (stop - cur) step Hstep ltac:(lia)).
      replace (Z.to_nat (ceil_div (stop - cur) step)) with O by lia.
      reflexivity.
Qed.

(** On a positive step [np.arange(0, extent, step)] is Python's range. *)
Lemma arange_is_range (extent step : Z) :
  0 < step -> Np.arange 0 extent step = Ok (py_range extent step).
Proof.
  intros Hstep. unfold Np.arange, py_range.
  destruct (step =? 0) eqn:E; [lia|].
  rewrite arange_loop_closed by lia.
  rewrite Z.sub_0_r. f_equal.
Qed.

Lemma py_range_length (extent step : Z) :
  length (py_range extent step) = Z.to_nat (ceil_div extent step).
Proof. unfold py_range. now rewrite length_map, length_seq. Qed.

(** The members of the range: the multiples of the step below the extent. *)
Lemma py_range_elem (extent step x : Z) :
  0 < step ->
  In x (py_range extent step) <-> exists k, 0 <= k /\ x = k * step /\ x < extent.
Proof.
  intros Hstep. unfold py_range. rewrite in_map_iff. split.
  - intros (i & <- & Hi). apply in_seq in Hi.
    exists (Z.of_nat i). split; [lia|]. split; [reflexivity|].
    assert (~ ceil_div extent step <= Z.of_nat i) as Hn by lia.
    rewrite ceil_div_spec in Hn by lia. lia.
  - intros (k & Hk & -> & Hlt). exists (Z.to_nat k). split; [lia|].
    apply in_seq. split; [lia|]. cbn.
    assert (~ ceil_div extent step <= k) as Hn.
    { rewrite ceil_div_spec by lia. lia. }
    lia.
Qed.

Lemma py_range_single (extent step : Z) :
  0 < extent -> extent <= step -> py_range extent step = [0].
Proof.
  intros He Hs. unfold py_range.
  assert (ceil_div extent step = 1) as ->.
  { assert (ceil_div extent step <= 1) by (apply ceil_div_spec; lia).
    pose proof (ceil_div_pos extent step ltac:(lia) He). lia. }
  reflexivity.
Qed.

(** *** The array plumbing of [build_grid] *)

Lemma meshgrid_single (s : Z) (l : list Z) :
  Np.meshgrid [s] l = (map (fun _ => [s]) l, map (fun v => [v]) l).
Proof. reflexivity. Qed.

Lemma stack_reshape (l1 : list Z) :
  forall l2,
    Np.reshape_m1_2 (Np.stack_axis2 (map (fun v => [v]) l1) (map (fun v => [v]) l2))
    = pair_rows l1 l2.
Proof.
  unfold Np.reshape_m1_2, Np.stack_axis2, pair_rows.
  induction l1 as [|x l1 IH]; intros [|y l2]; cbn; try reflexivity.
  f_equal. apply IH.
Qed.

Lemma boxes_of_app (size : Z) (xs1 : list Z) :
  forall ys1 xs2 ys2,
    length xs1 = length ys1 ->
    boxes_of size (xs1 ++ xs2) (ys1 ++ ys2)
    = boxes_of size xs1 ys1 ++ boxes_of size xs2 ys2.
Proof.
  induction xs1 as [|x xs1 IH]; intros [|y ys1] xs2 ys2 Hlen;
    cbn in Hlen; try discriminate; [reflexivity|].
  unfold boxes_of, Np.concatenate_axis1, Np.add2, pair_rows in *.
  cbn. f_equal. apply IH. lia.
Qed.

Lemma boxes_of_row (size y : Z) (xs : list Z) :
  boxes_of size xs (map (fun _ => y) xs) = map (fun x => box_at size x y) xs.
Proof.
  unfold boxes_of, Np.concatenate_axis1, Np.add2, pair_rows, box_at.
  induction xs as [|x xs IH]; cbn; [reflexivity|]. f_equal. apply IH.
Qed.

Lemma boxes_of_grid (size : Z) (xs ys : list Z) :
  boxes_of size (Np.ravel (map (fun _ => xs) ys))
    (Np.ravel (map (fun y => map (fun _ => y) xs) ys))
  = flat_map (fun y => map (fun x => box_at size x y) xs) ys.
Proof.
  unfold Np.ravel.
  induction ys as [|y ys IH]; cbn [map concat flat_map]; [reflexivity|].
  rewrite boxes_of_app by now rewrite length_map.
  now rewrite boxes_of_row, IH.
Qed.

(** [build_grid] in closed form: one box per pair of origins, the
    x-origins varying fastest. *)
Lemma build_grid_closed (stride size height width channels : Z) :
  0 < size * stride ->
  build_grid stride size (height, width, channels)
  = Ok (flat_map (fun oy => map (fun ox => box_at size ox oy)
                              (py_range width (size * stride)))
          (py_range height (size * stride))).
Proof.
  intros Hstep. unfold build_grid.
  rewrite !arange_is_range by assumption. cbn [rbind].
  destruct (Np.meshgrid (py_range width (size * stride))
              (py_range height (size * stride))) as [cx cy] eqn:Emesh.
  rewrite !meshgrid_single.
  rewrite stack_reshape.
  replace (map (fun _ : Z => [size]) (Np.ravel cx))
    with (map (fun v => [v]) (map (fun _ => size) (Np.ravel cx)))
    by (rewrite map_map; reflexivity).
  replace (map (fun _ : Z => [size]) (Np.ravel cy))
    with (map (fun v => [v]) (map (fun _ => size) (Np.ravel cy)))
    by (rewrite map_map; reflexivity).
  rewrite stack_reshape.
  f_equal.
  unfold Np.meshgrid in Emesh. injection Emesh as <- <-.
  apply boxes_of_grid.
Qed.

Lemma flat_map_length_const {A B} (f : A -> list B) (n : nat) (l : list A) :
  (forall a, length (f a) = n) -> length (flat_map f l) = (length l * n)%nat.
Proof.
  intros Hf. induction l as [|a l IH]; cbn; [reflexivity|].
  rewrite length_app, Hf, IH. lia.
Qed.

End GridFacts.

(** C3: for an image shape with non-negative extents and a positive cell
    size and stride, [build_grid] returns exactly
    [ceil(width / (size * stride)) * ceil(height / (size * stride))] boxes;
    for shape (224, 224, 3), size 16 and stride 2 it returns 49 boxes. *)
Theorem build_grid_count (stride size height width channels : Z) :
  0 < stride -> 0 < size -> 0 <= height -> 0 <= width ->
  (exists boxes,
      build_grid stride size (height, width, channels) = Ok boxes
      /\ Z.of_nat (length boxes)
         = ceil_div width (size * stride) * ceil_div height (size * stride))
  /\ (exists boxes, build_grid 2 16 (224, 224, 3) = Ok boxes
                    /\ length boxes = 49%nat).
Proof.
  intros Hstride Hsize Hh Hw. split.
  - eexists. split; [apply build_grid_closed; lia|].
    rewrite (flat_map_length_const _ (length (py_range width (size * stride))))
      by (intros; apply length_map).
    rewrite !py_range_length.
    assert (0 < size * stride) as Hstep by lia.
    assert (0 <= ceil_div width (size * stride)).
    { destruct (Z.eq_dec width 0) as [->|]; [reflexivity|].
      pose proof (ceil_div_pos width _ Hstep ltac:(lia)). lia. }
    assert (0 <= ceil_div height (size * stride)).
    { destruct (Z.eq_dec height 0) as [->|]; [reflexivity|].
      pose proof (ceil_div_pos height _ Hstep ltac:(lia)). lia. }
    lia.
  - eexists. split; reflexivity.
Qed.

Lemma build_grid_count_witness :
  exists boxes,
    build_grid 2 16 (224, 224, 3) = Ok boxes
    /\ Z.of_nat (length boxes) = ceil_div 224 (16 * 2) * ceil_div 224 (16 * 2).
Proof.
  exact (proj1 (build_grid_count 2 16 224 224 3
                  ltac:(lia) ltac:(lia) ltac:(lia) ltac:(lia))).
Defined.

(** C4: for a positive cell size and stride, the origins along each axis
    are [range(0, extent, size * stride)], a single origin 0 when
    [size * stride >= extent]; every box is [origin, origin + size] on both
    axes; the boxes come in row-major order over the origin grid, all
    x-origins for the first y-origin, then the next y-origin. *)
Theorem build_grid_boxes (stride size height width channels : Z) :
  0 < stride -> 0 < size ->
  Np.arange 0 width (size * stride) = Ok (py_range width (size * stride))
  /\ Np.arange 0 height (size * stride) = Ok (py_range height (size * stride))
  /\ (forall extent x,
        In x (py_range extent (size * stride)) <->
        exists k, 0 <= k /\ x = k * (size * stride) /\ x < extent)
  /\ (forall extent, 0 < extent -> extent <= size * stride ->
        Np.arange 0 extent (size * stride) = Ok [0])
  /\ build_grid stride size (height, width, channels)
     = Ok (flat_map (fun oy => map (fun ox => [ox; oy; ox + size; oy + size])
                                 (py_range width (size * stride)))
             (py_range height (size * stride))).
Proof.
  intros Hstride Hsize.
  assert (0 < size * stride) as Hstep by lia.
  repeat split.
  - now apply arange_is_range.
  - now apply arange_is_range.
  - now apply py_range_elem.
  - now apply py_range_elem.
  - intros extent He Hle. rewrite arange_is_range by assumption.
    now rewrite py_range_single.
  - now apply build_grid_closed.
Qed.

Lemma build_grid_boxes_witness :
  build_grid 1 2 (3, 5, 3)
  = Ok [[0; 0; 2; 2]; [2; 0; 4; 2]; [4; 0; 6; 2];
        [0; 2; 2; 4]; [2; 2; 4; 4]; [4; 2; 6; 4]].
Proof.
  exact (proj2 (proj2 (proj2 (proj2 (build_grid_boxes 1 2 3 5 3
                                      ltac:(lia) ltac:(lia)))))).
Defined.

(** * Properties of the rasterizer *)

Section RasterFacts.

Variables rows cols : nat.

Lemma cell2_assign_box (img : list (list Z)) (bb : bbox) (v : Z) (r c : nat) :
  cell2 (assign_box rows cols img bb v) r c
  = (fun x => if covers rows cols bb r c then v else x) <$> cell2 img r c.
Proof.
  unfold cell2, assign_box. rewrite list_lookup_imap.
  destruct (img !! r) as [row|]; cbn; [|reflexivity].
  now rewrite list_lookup_imap.
Qed.

Lemma cell2_zeros (r c : nat) :
  cell2 (Np.zeros2 rows cols) r c
  = if bool_decide (r < rows)%nat && bool_decide (c < cols)%nat
    then Some 0 else None.
Proof.
  unfold cell2, Np.zeros2.
  destruct (bool_decide_reflect (r < rows)%nat) as [Hr|Hr].
  - rewrite (lookup_replicate_2 rows (replicate cols 0) r Hr).
    destruct (bool_decide_reflect (c < cols)%nat) as [Hc|Hc]; cbn.
    + exact (lookup_replicate_2 cols 0 c Hc).
    + apply lookup_replicate_None. lia.
  - cbn. rewrite (proj1 (lookup_replicate_None rows (replicate cols 0) r))
      by lia. reflexivity.
Qed.

(** What the loop leaves in a cell: the number of the last box of the
    remaining sequence that covers it, or the old value. *)
Lemma cell2_loop (bboxes : list bbox) :
  forall idx img r c,
    cell2 (print_bboxes_loop rows cols idx bboxes img) r c
    = (fun x => match last_cover rows cols bboxes r c with
                | Some i => idx + Z.of_nat i + 1
                | None => x
                end) <$> cell2 img r c.
Proof.
  induction bboxes as [|bb rest IH]; intros idx img r c.
  - cbn. now destruct (cell2 img r c).
  - cbn [print_bboxes_loop last_cover].
    rewrite IH, cell2_assign_box.
    destruct (cell2 img r c) as [x|];
      cbn [fmap option_fmap option_map]; [|reflexivity].
    f_equal.
    destruct (last_cover rows cols rest r c) as [i|]; [lia|].
    destruct (covers rows cols bb r c); [lia|reflexivity].
Qed.

Lemma last_cover_None (bboxes : list bbox) (r c : nat) :
  last_cover rows cols bboxes r c = None <->
  forall i bb, bboxes !! i = Some bb -> covers rows cols bb r c = false.
Proof.
  induction bboxes as [|bb rest IH]; cbn [last_cover].
  - split; [intros _ i bb' H; discriminate|reflexivity].
  - destruct (last_cover rows cols rest r c) as [k|] eqn:E.
    + split; [discriminate|]. intros H. exfalso.
      assert (Some k = None) as Hk; [|discriminate].
      apply IH. intros i bb' Hi. apply (H (S i)). exact Hi.
    + destruct (covers rows cols bb r c) eqn:Ec.
      * split; [discriminate|]. intros H.
        specialize (H O bb eq_refl). congruence.
      * split; [|reflexivity]. intros _ [|i] bb' Hi.
        -- cbn in Hi. congruence.
        -- apply (proj1 IH eq_refl i). exact Hi.
Qed.

Lemma last_cover_Some (bboxes : list bbox) (r c i : nat) :
  last_cover rows cols bboxes r c = Some i ->
  exists bb, bboxes !! i = Some bb
             /\ covers rows cols bb r c = true
             /\ forall j bb', (i < j)%nat -> bboxes !! j = Some bb' ->
                              covers rows cols bb' r c = false.
Proof.
  revert i. induction bboxes as [|bb rest IH]; intros i; cbn [last_cover].
  - discriminate.
  - destruct (last_cover rows cols rest r c) as [k|] eqn:E.
    + intros [= <-]. destruct (IH k eq_refl) as (bb' & Hk & Hc & Hlater).
      exists bb'. repeat split; [exact Hk|exact Hc|].
      intros [|j] bb'' Hj Hlook; [lia|].
      apply (Hlater j); [lia|exact Hlook].
    + destruct (covers rows cols bb r c) eqn:Ec; [|discriminate].
      intros [= <-]. exists bb. repeat split; [exact Ec|].
      intros [|j] bb'' Hj Hlook; [lia|].
      apply (proj1 (last_cover_None rest r c) E j). exact Hlook.
Qed.

(** The last covering box is determined by its defining property. *)
Lemma last_cover_unique (bboxes : list bbox) (r c i : nat) (bb : bbox) :
  bboxes !! i = Some bb ->
  covers rows cols bb r c = true ->
  (forall j bb', (i < j)%nat -> bboxes !! j = Some bb' ->
                 covers rows cols bb' r c = false) ->
  last_cover rows cols bboxes r c = Some i.
Proof.
  intros Hi Hc Hlater.
  destruct (last_cover rows cols bboxes r c) as [k|] eqn:E.
  - destruct (last_cover_Some _ _ _ _ E) as (bbk & Hk & Hck & Hlk).
    destruct (Nat.lt_trichotomy i k) as [Hlt|[->|Hgt]]; [|reflexivity|].
    + rewrite (Hlater k bbk Hlt Hk) in Hck. discriminate.
    + rewrite (Hlk i bb Hgt Hi) in Hc. discriminate.
  - rewrite (proj1 (last_cover_None _ _ _) E i bb Hi) in Hc. discriminate.
Qed.

End RasterFacts.

(** C9: [print_bboxes] paints the area of the i-th box with [i + 1], a
    later box overwrites an earlier one where they overlap, and a cell that
    no box covers keeps 0. *)
Theorem print_bboxes_paints (bboxes : list bbox) (rows cols r c : nat) :
  (r < rows)%nat -> (c < cols)%nat ->
  (forall i bb,
      bboxes !! i = Some bb ->
      covers rows cols bb r c = true ->
      (forall j bb', (i < j)%nat -> bboxes !! j = Some bb' ->
                     covers rows cols bb' r c = false) ->
      cell2 (print_bboxes bboxes (rows, cols)) r c = Some (Z.of_nat i + 1))
  /\ ((forall i bb, bboxes !! i = Some bb -> covers rows cols bb r c = false) ->
      cell2 (print_bboxes bboxes (rows, cols)) r c = Some 0).
Proof.
  intros Hr Hc.
  assert (cell2 (print_bboxes bboxes (rows, cols)) r c
          = Some match last_cover rows cols bboxes r c with
                 | Some i => Z.of_nat i + 1
                 | None => 0
                 end) as Hcell.
  { unfold print_bboxes. rewrite cell2_loop, cell2_zeros.
    rewrite !bool_decide_eq_true_2 by assumption. cbn.
    now destruct (last_cover rows cols bboxes r c). }
  split.
  - intros i bb Hi Hcov Hlater.
    now rewrite Hcell, (last_cover_unique _ _ _ _ _ _ _ Hi Hcov Hlater).
  - intros Hnone.
    now rewrite Hcell, (proj2 (last_cover_None _ _ _ _ _) Hnone).
Qed.

Lemma print_bboxes_paints_witness :
  cell2 (print_bboxes [(0, 0, 2, 2); (1, 1, 3, 3)] (4%nat, 4%nat)) 1 1 = Some 2
  /\ cell2 (print_bboxes [(0, 0, 2, 2); (1, 1, 3, 3)] (4%nat, 4%nat)) 0 1 = Some 1.
Proof.
  split.
  - apply (proj1 (print_bboxes_paints [(0, 0, 2, 2); (1, 1, 3, 3)] 4 4 1 1
                    ltac:(lia) ltac:(lia)) 1%nat (1, 1, 3, 3)).
    + reflexivity.
    + reflexivity.
    + intros [|[|j]] bb' Hj Hlook; [lia|lia|discriminate].
  - apply (proj1 (print_bboxes_paints [(0, 0, 2, 2); (1, 1, 3, 3)] 4 4 0 1
                    ltac:(lia) ltac:(lia)) 0%nat (0, 0, 2, 2)).
    + reflexivity.
    + reflexivity.
    + intros [|[|[|j]]] bb' Hj Hlook; [lia| |discriminate|discriminate].
      injection Hlook as <-. reflexivity.
Defined.

(** C10: every entry of the array that [print_bboxes] returns for [N]
    boxes is an integer of [0 .. N]: 0 when no box covers the entry, or
    else the 1-based position of a box of the sequence, the last one that
    covers it. *)
Theorem print_bboxes_range (bboxes : list bbox) (rows cols : nat) :
  forall r c v,
    cell2 (print_bboxes bboxes (rows, cols)) r c = Some v <->
    (r < rows)%nat /\ (c < cols)%nat
    /\ 0 <= v <= Z.of_nat (length bboxes)
    /\ ((v = 0 /\ forall i bb, bboxes !! i = Some bb ->
                               covers rows cols bb r c = false)
        \/ exists i bb,
            bboxes !! i = Some bb
            /\ v = Z.of_nat i + 1
            /\ covers rows cols bb r c = true
            /\ forall j bb', (i < j)%nat -> bboxes !! j = Some bb' ->
                              covers rows cols bb' r c = false).
Proof.
  intros r c v. unfold print_bboxes. rewrite cell2_loop, cell2_zeros.
  destruct (bool_decide_reflect (r < rows)%nat) as [Hr|Hr];
    [|cbn; split; [discriminate|tauto]].
  destruct (bool_decide_reflect (c < cols)%nat) as [Hc|Hc];
    [|cbn; split; [discriminate|tauto]].
  cbn [andb fmap option_fmap option_map].
  destruct (last_cover rows cols bboxes r c) as [k|] eqn:E.
  - destruct (last_cover_Some _ _ _ _ _ _ E) as (bb & Hk & Hcov & Hlater).
    pose proof (lookup_lt_Some _ _ _ Hk) as Hlt.
    split.
    + intros [= Hv]. subst v. repeat split; [assumption|assumption|lia|lia|].
      right. exists k, bb. repeat split; assumption.
    + intros (_ & _ & _ & [[-> Hnone]|(i & bb' & Hi & -> & Hcov' & Hlater')]).
      * rewrite (Hnone k bb Hk) in Hcov. discriminate.
      * pose proof (last_cover_unique _ _ _ _ _ _ _ Hi Hcov' Hlater') as E'.
        rewrite E in E'. injection E' as ->. f_equal; lia.
  - pose proof (proj1 (last_cover_None _ _ _ _ _) E) as Hnone.
    split.
    + intros [= Hv]. subst v. repeat split; [assumption|assumption|lia|lia|].
      left. split; [reflexivity|assumption].
    + intros (_ & _ & _ & [[-> _]|(i & bb' & Hi & _ & Hcov' & _)]).
      * reflexivity.
      * rewrite (Hnone i bb' Hi) in Hcov'. discriminate.
Qed.

(** * Runs of the store monad *)

Section RunRules.

Context {A B : Type}.

Lemma bind_ok (m : M A) (k : A -> M B) (st st' : store) (a : A) :
  m st = (Ok a, st') -> bind m k st = k a st'.
Proof. intros H. unfold bind. now rewrite H. Qed.

Lemma bind_raise (m : M A) (k : A -> M B) (st st' : store) (e : exn) :
  m st = (Raise e, st') -> bind m k st = (Raise e, st').
Proof. intros H. unfold bind. now rewrite H. Qed.

Lemma returning_bind (P : store -> Prop) (m : M A) (k : A -> M B)
    (R : A -> store -> Prop) (Q : B -> store -> Prop) :
  triple P m (returning R) ->
  (forall a, triple (R a) (k a) (returning Q)) ->
  triple P (bind m k) (returning Q).
Proof.
  intros Hm Hk st HP. specialize (Hm st HP). unfold bind.
  destruct (m st) as [[a|e] st']; cbn in Hm; [|contradiction].
  exact (Hk a st' Hm).
Qed.

Lemma keeping_bind (I : store -> Prop) (m : M A) (k : A -> M B)
    (R : A -> Prop) (Q : B -> Prop) :
  triple I m (keeping I R) ->
  (forall a, R a -> triple I (k a) (keeping I Q)) ->
  triple I (bind m k) (keeping I Q).
Proof.
  intros Hm Hk st HI. specialize (Hm st HI). unfold bind.
  destruct (m st) as [[a|e] st']; cbn in Hm; destruct Hm as [HI' HR].
  - exact (Hk a HR st' HI').
  - cbn. split; [exact HI'|exact Logic.I].
Qed.

End RunRules.

(** * The caller's buffers are never written *)

Section Frame.

Variable s0 : store.

Local Abbreviation I := (extends s0).

Lemma extends_refl : extends s0 s0.
Proof. exists []. now rewrite app_nil_r. Qed.

Lemma extends_lookup (st : store) (a : nat) :
  extends s0 st -> (a < length s0)%nat -> st !! a = s0 !! a.
Proof. intros [ext ->] Ha. now apply lookup_app_l. Qed.

Lemma extends_length (st : store) : extends s0 st -> (length s0 <= length st)%nat.
Proof. intros [ext ->]. rewrite length_app. lia. Qed.

Lemma frame_ret {A} (a : A) (Q : A -> Prop) : Q a -> triple I (ret a) (keeping I Q).
Proof. intros HQ st HI. split; assumption. Qed.

Lemma frame_raise {A} (e : exn) (Q : A -> Prop) : triple I (raise e) (keeping I Q).
Proof. intros st HI. split; [assumption|exact Logic.I]. Qed.

Lemma frame_lift {A} (r : result A) : triple I (lift r) (keeping I (fun _ => True)).
Proof. intros st HI. split; [assumption|]. cbn. now destruct r. Qed.

Lemma frame_alloc (b : buffer) :
  triple I (alloc b) (keeping I (fun p => (length s0 <= p)%nat)).
Proof.
  intros st HI. cbn. split.
  - destruct HI as [ext ->]. exists (ext ++ [b]). now rewrite app_assoc.
  - now apply extends_length.
Qed.

Lemma frame_load (a : nat) : triple I (load a) (keeping I (fun _ => True)).
Proof. intros st HI. split; [assumption|exact Logic.I]. Qed.

Lemma frame_save (a : nat) (b : buffer) :
  (length s0 <= a)%nat -> triple I (save a b) (keeping I (fun _ => True)).
Proof.
  intros Ha st [ext ->]. split; [|exact Logic.I].
  exists (<[(a - length s0)%nat := b]> ext).
  unfold save. cbn [snd]. now apply insert_app_r_alt.
Qed.

Lemma frame_for_each {X} (xs : list X) (body : X -> M unit) :
  (forall x, triple I (body x) (keeping I (fun _ => True))) ->
  triple I (for_each xs body) (keeping I (fun _ => True)).
Proof.
  intros Hbody. induction xs as [|x xs IH]; cbn [for_each].
  - now apply frame_ret.
  - eapply keeping_bind; [apply Hbody|]. intros _ _. exact IH.
Qed.

Lemma frame_np_reshape (a : ndarray) (s : shape) :
  triple I (np_reshape a s) (keeping I (fun _ => True)).
Proof.
  unfold np_reshape. destruct (_ =? _); [now apply frame_ret|apply frame_raise].
Qed.

Lemma frame_np_copy (a : ndarray) :
  triple I (np_copy a)
    (keeping I (fun a' => (length s0 <= nd_buf a')%nat
                          /\ nd_shape a' = nd_shape a)).
Proof.
  unfold np_copy.
  eapply keeping_bind; [apply frame_load|]. intros b _.
  eapply keeping_bind; [apply frame_alloc|]. intros p Hp.
  apply frame_ret. now split.
Qed.

Lemma frame_np_zeros (s : shape) :
  triple I (np_zeros s) (keeping I (fun a' => (length s0 <= nd_buf a')%nat)).
Proof.
  unfold np_zeros.
  eapply keeping_bind; [apply frame_alloc|]. intros p Hp.
  now apply frame_ret.
Qed.

Lemma frame_setitem (a : ndarray) (j : Z) (m : mask) (v : spec_float) :
  (length s0 <= nd_buf a)%nat ->
  triple I (setitem_axis2_mask a j m v) (keeping I (fun _ => True)).
Proof.
  intros Ha. unfold setitem_axis2_mask.
  destruct (nd_shape a !! 2%nat); [|apply frame_raise].
  destruct (negb _); [apply frame_raise|].
  destruct (negb _); [apply frame_raise|].
  eapply keeping_bind; [apply frame_load|]. intros b _.
  now apply frame_save.
Qed.

Lemma frame_model_predict (model : predictor) (a : ndarray) :
  triple I (model_predict model a) (keeping I (fun _ => True)).
Proof.
  unfold model_predict.
  eapply keeping_bind; [apply frame_load|]. intros b _.
  now apply frame_ret.
Qed.

Lemma frame_occlusion_body (model : predictor) (z : zones)
    (batch_img heatmap : ndarray) (original_prop : list spec_float)
    (index_object : nat) (u_val : Z) :
  (length s0 <= nd_buf heatmap)%nat ->
  triple I (occlusion_body model z batch_img heatmap original_prop
              index_object u_val)
    (keeping I (fun _ => True)).
Proof.
  intros Hh. unfold occlusion_body.
  eapply keeping_bind; [apply frame_np_copy|]. intros img [Himg _].
  do 3 (eapply keeping_bind; [now apply frame_setitem|]; intros _ _).
  eapply keeping_bind; [apply frame_model_predict|]. intros probs _.
  do 2 (eapply keeping_bind; [apply frame_lift|]; intros ? _).
  do 2 (eapply keeping_bind; [now apply frame_setitem|]; intros _ _).
  now apply frame_setitem.
Qed.

Lemma frame_occlusion_heatmap (batch_img : ndarray) (model : predictor)
    (z : zones) :
  triple I (occlusion_heatmap batch_img model z)
    (keeping I (fun hm => (length s0 <= nd_buf hm)%nat)).
Proof.
  unfold occlusion_heatmap.
  eapply keeping_bind; [apply frame_np_reshape|]. intros view _.
  eapply keeping_bind; [apply frame_np_copy|]. intros batch _.
  eapply keeping_bind; [apply frame_model_predict|]. intros probs _.
  eapply keeping_bind; [apply frame_lift|]. intros index_object _.
  eapply keeping_bind; [apply frame_np_zeros|]. intros hm Hhm.
  eapply keeping_bind.
  { apply frame_for_each. intros u. now apply frame_occlusion_body. }
  intros _ _. now apply frame_ret.
Qed.

Lemma frame_normalize (hm : ndarray) :
  (length s0 <= nd_buf hm)%nat ->
  triple I (normalize_to_uint8 hm) (keeping I (fun _ => True)).
Proof.
  intros Hhm. unfold normalize_to_uint8, np_max, idiv, imul, astype_uint8.
  eapply keeping_bind with (R := fun _ => True).
  { eapply keeping_bind; [apply frame_load|]. intros b _.
    destruct b; [apply frame_raise|now apply frame_ret]. }
  intros m _.
  do 2 (eapply keeping_bind;
        [eapply keeping_bind; [apply frame_load|]; intros ? _;
         now apply frame_save|]; intros _ _).
  eapply keeping_bind; [apply frame_load|]. intros b _.
  now apply frame_ret.
Qed.

Lemma frame_occlusion_test (batch_img : ndarray) (model : predictor)
    (z : zones) :
  triple I (occlusion_test batch_img model z) (keeping I (fun _ => True)).
Proof.
  unfold occlusion_test.
  eapply keeping_bind; [apply frame_occlusion_heatmap|]. intros hm Hhm.
  now apply frame_normalize.
Qed.

End Frame.

(** * Runs of [occlusion_test] that return *)

Section Returning.

Context {A B : Type}.

Lemma returning_bind_pure (P R : store -> Prop) (m : M A) (k : A -> M B)
    (phi : A -> Prop) (Q : B -> store -> Prop) :
  triple P m (returning (fun a st => phi a /\ R st)) ->
  (forall a, phi a -> triple R (k a) (returning Q)) ->
  triple P (bind m k) (returning Q).
Proof.
  intros Hm Hk. eapply returning_bind; [exact Hm|].
  intros a st [Hphi HR]. exact (Hk a Hphi st HR).
Qed.

Lemma returning_ret (P : store -> Prop) (a : A) (phi : A -> Prop) :
  phi a -> triple P (ret a) (returning (fun a st => phi a /\ P st)).
Proof. intros Hphi st HP. split; assumption. Qed.

Lemma returning_lift (P : store -> Prop) (r : result A) (a : A)
    (phi : A -> Prop) :
  r = Ok a -> phi a ->
  triple P (lift r) (returning (fun a st => phi a /\ P st)).
Proof. intros -> Hphi st HP. split; assumption. Qed.

End Returning.

Section Holds.

Variables (h n : nat).
Hypothesis n_pos : (0 < n)%nat.

Lemma holds_lookup (st : store) :
  holds h n st -> exists b, st !! h = Some b /\ length b = n.
Proof.
  unfold holds. destruct (st !! h) as [b|]; cbn.
  - intros H. now exists b.
  - intros H. lia.
Qed.

Lemma holds_app (st : store) (b : buffer) : holds h n st -> holds h n (st ++ [b]).
Proof.
  intros H. destruct (holds_lookup st H) as (b' & Hb' & Hlen).
  unfold holds. now rewrite (lookup_app_l_Some _ _ _ _ Hb').
Qed.

Lemma holds_insert (st : store) (a : nat) (b : buffer) :
  length b = length (default [] (st !! a)) ->
  holds h n st -> holds h n (<[a := b]> st).
Proof.
  intros Hlen H. destruct (holds_lookup st H) as (b' & Hb' & Hlen').
  unfold holds. destruct (decide (a = h)) as [->|Hne].
  - rewrite list_lookup_insert_eq by (eapply lookup_lt_Some; eassumption).
    cbn. rewrite Hlen, Hb'. exact Hlen'.
  - rewrite list_lookup_insert_ne by assumption. exact H.
Qed.

Lemma length_imapZ {X Y} (f : Z -> X -> Y) (l : list X) :
  forall i, length (imapZ f i l) = length l.
Proof. induction l as [|x l IH]; intros i; cbn; [reflexivity|]. now rewrite IH. Qed.

Lemma holds_np_copy (a : ndarray) :
  triple (holds h n) (np_copy a)
    (returning (fun a' st => nd_shape a' = nd_shape a /\ holds h n st)).
Proof. intros st H. cbn. split; [reflexivity|]. now apply holds_app. Qed.

Lemma holds_setitem (a : ndarray) (j ext : Z) (m : mask) (v : spec_float) :
  nd_shape a !! 2%nat = Some ext ->
  0 <= j < ext ->
  mask_fits (m_shape m) (delete 2%nat (nd_shape a)) = true ->
  triple (holds h n) (setitem_axis2_mask a j m v)
    (returning (fun _ st => True /\ holds h n st)).
Proof.
  intros Hext Hj Hfit st H. unfold setitem_axis2_mask.
  rewrite Hext, Hfit.
  replace ((0 <=? j) && (j <? ext)) with true by lia.
  cbn [negb]. unfold bind, load, save. cbn [fst snd returning].
  split; [exact Logic.I|].
  apply holds_insert; [apply length_imapZ|exact H].
Qed.

Lemma holds_model_predict (model : predictor) (a : ndarray) (k : nat) :
  (forall b, length (model b) = k) ->
  triple (holds h n) (model_predict model a)
    (returning (fun v st => length v = k /\ holds h n st)).
Proof. intros Hk st H. cbn. split; [apply Hk|exact H]. Qed.

Lemma holds_getitem (v : list spec_float) (i : nat) :
  (i < length v)%nat ->
  triple (holds h n) (lift (getitem v i))
    (returning (fun _ st => True /\ holds h n st)).
Proof.
  intros Hi st H. unfold lift, getitem.
  destruct (lookup_lt_is_Some_2 v i Hi) as [x ->]. now split.
Qed.

Lemma holds_for_each {X} (xs : list X) (body : X -> M unit) :
  (forall x, triple (holds h n) (body x)
               (returning (fun _ st => True /\ holds h n st))) ->
  triple (holds h n) (for_each xs body)
    (returning (fun _ st => True /\ holds h n st)).
Proof.
  intros Hbody. induction xs as [|x xs IH]; cbn [for_each].
  - now apply returning_ret.
  - eapply returning_bind_pure; [apply Hbody|]. intros _ _. exact IH.
Qed.

End Holds.

Lemma mask_fits_cases (ms : shape) :
  mask_fits ms [1; 224] = true -> ms = [] \/ ms = [1] \/ ms = [1; 224].
Proof.
  unfold mask_fits, shape_eqb. intros H. apply bool_decide_eq_true_1 in H.
  destruct ms as [|a [|b [|c ms]]]; cbn in H; auto; discriminate.
Qed.

Lemma argmax_loop_lt (l : list spec_float) :
  forall best_i best i,
    (best_i < i)%nat -> (argmax_loop best_i best i l < i + length l)%nat.
Proof.
  induction l as [|x l IH]; intros best_i best i Hi; cbn [argmax_loop length].
  - lia.
  - destruct (beats x best).
    + specialize (IH i x (S i) ltac:(lia)). lia.
    + specialize (IH best_i best (S i) ltac:(lia)). lia.
Qed.

Lemma np_argmax_lt (v : list spec_float) :
  v <> [] -> exists i, np_argmax v = Ok i /\ (i < length v)%nat.
Proof.
  destruct v as [|x v]; [congruence|]. intros _. eexists. split; [reflexivity|].
  pose proof (argmax_loop_lt v O x 1%nat ltac:(lia)). cbn [length]. lia.
Qed.

Section OcclusionReturns.

Variables (model : predictor) (classes : nat).
Hypothesis classes_pos : (0 < classes)%nat.
Hypothesis model_len : forall b, length (model b) = classes.

Variable z : zones.
Hypothesis z_fits : mask_fits (z_shape z) [1; 224] = true.

Lemma body_returns (h n : nat) (batch_img heatmap : ndarray)
    (original_prop : list spec_float) (index_object : nat) (u_val : Z) :
  (0 < n)%nat ->
  nd_shape batch_img = [1; 224; 224; 3] ->
  nd_shape heatmap = [1; 224; 224] ->
  length original_prop = classes ->
  (index_object < classes)%nat ->
  triple (holds h n)
    (occlusion_body model z batch_img heatmap original_prop index_object u_val)
    (returning (fun _ st => True /\ holds h n st)).
Proof.
  intros Hn Hb Hh Hlen Hi. unfold occlusion_body.
  assert (mask_fits (m_shape (zones_eq z u_val)) [1; 224; 3] = true
          /\ mask_fits (m_shape (zones_eq z u_val)) [1; 224] = true)
    as [Hfit3 Hfit2].
  { cbn [zones_eq m_shape].
    destruct (mask_fits_cases _ z_fits) as [->|[->| ->]]; now split. }
  eapply returning_bind_pure; [now apply holds_np_copy|].
  intros img Himg. cbv beta in Himg. rewrite Hb in Himg.
  do 3 (eapply returning_bind_pure;
        [apply (holds_setitem h n Hn img _ 224);
         [now rewrite Himg|lia|now rewrite Himg]|]; intros _ _).
  eapply returning_bind_pure; [now apply holds_model_predict|].
  intros probs Hprobs. cbv beta in Hprobs.
  eapply returning_bind_pure; [apply holds_getitem; lia|]. intros p0 _.
  eapply returning_bind_pure; [apply holds_getitem; lia|]. intros p1 _.
  do 2 (eapply returning_bind_pure;
        [apply (holds_setitem h n Hn heatmap _ 224);
         [now rewrite Hh|lia|now rewrite Hh]|]; intros _ _).
  apply (holds_setitem h n Hn heatmap _ 224);
    [now rewrite Hh|lia|now rewrite Hh].
Qed.

Lemma heatmap_returns (batch_img : ndarray) :
  size_of (nd_shape batch_img) = 150528 ->
  triple (fun _ => True) (occlusion_heatmap batch_img model z)
    (returning (fun hm st => nd_shape hm = [1; 224; 224]
                             /\ holds (nd_buf hm) (Z.to_nat 50176) st)).
Proof.
  intros Hsize. unfold occlusion_heatmap.
  eapply returning_bind_pure
    with (phi := fun a => nd_shape a = [1; 224; 224; 3]) (R := fun _ => True).
  { intros st _. unfold np_reshape. rewrite Hsize. cbn. now split. }
  intros view Hview. cbv beta in Hview.
  eapply returning_bind_pure
    with (phi := fun a => nd_shape a = [1; 224; 224; 3]) (R := fun _ => True).
  { intros st _. cbn. now split. }
  intros batch Hbatch. cbv beta in Hbatch.
  eapply returning_bind_pure
    with (phi := fun v => length v = classes) (R := fun _ => True).
  { intros st _. cbn. split; [apply model_len|exact Logic.I]. }
  intros probs Hprobs. cbv beta in Hprobs.
  destruct (np_argmax_lt probs) as (i & Hi & Hlt).
  { intros ->. cbn in Hprobs. lia. }
  eapply returning_bind_pure; [apply (returning_lift _ _ i (fun i => (i < classes)%nat) Hi); lia|].
  intros index_object Hindex. cbv beta in Hindex.
  eapply returning_bind
    with (R := fun hm st => nd_shape hm = [1; 224; 224]
                            /\ holds (nd_buf hm) (Z.to_nat 50176) st).
  { intros st _. unfold np_zeros, bind, alloc, ret. cbn [fst snd returning].
    rewrite Hbatch. split; [reflexivity|].
    unfold holds. cbn [nd_buf].
    rewrite lookup_app_r by lia. rewrite Nat.sub_diag. cbn [lookup list_lookup default].
    unfold id. rewrite length_replicate. apply f_equal. reflexivity. }
  intros hm st [Hshape Hholds]. revert st Hholds.
  change (triple (holds (nd_buf hm) (Z.to_nat 50176))
            (for_each (np_unique z)
               (occlusion_body model z batch hm probs index_object);;; ret hm)
            (returning (fun hm0 st => nd_shape hm0 = [1; 224; 224]
                                      /\ holds (nd_buf hm0) (Z.to_nat 50176) st))).
  eapply returning_bind_pure.
  { apply (holds_for_each (nd_buf hm) (Z.to_nat 50176)). intros u.
    apply (body_returns (nd_buf hm) (Z.to_nat 50176) batch hm probs
             index_object u); [lia|assumption..]. }
  intros _ _ st H. split; assumption.
Qed.

End OcclusionReturns.

(** * Division by a zero maximum *)

Section ZeroMax.

Lemma div_by_zero_not_finite (prec emax : Z) (x : spec_float) (s : bool) :
  Flt.is_finite (SFdiv prec emax x (S754_zero s)) = false.
Proof. now destruct x as [[]|[]| |[] m e]. Qed.

Lemma zero_div_zero (prec emax : Z) (x : spec_float) (s : bool) :
  is_zero x = true -> SFdiv prec emax x (S754_zero s) = S754_nan.
Proof. now destruct x as [[]|[]| |[] m e]. Qed.

Lemma mul_255_not_finite (x : spec_float) :
  Flt.is_finite x = false -> Flt.is_finite (F64.mul x (F64.of_Z 255)) = false.
Proof. now destruct x as [[]|[]| |[] m e]. Qed.

Lemma u8_of_not_finite (x : spec_float) :
  Flt.is_finite x = false -> u8_of_float x = U8_unspecified.
Proof. now destruct x as [[]|[]| |[] m e]. Qed.

(** A maximum at or below zero bounds both operands. *)
Lemma maximum_nonpos (a x : spec_float) :
  nonpos (Flt.maximum a x) = true -> nonpos a = true /\ nonpos x = true.
Proof.
  unfold Flt.maximum.
  destruct a as [[]|[]| |[] ma ea], x as [[]|[]| |[] mx ex];
    cbn; try (intros H; split; first [reflexivity|discriminate|exact H]).
  all: destruct (ea ?= ex); try destruct (Pos.compare_cont Eq ma mx);
    cbn; intros H; split; first [reflexivity|discriminate|exact H].
Qed.

Lemma fold_maximum_nonpos (l : list spec_float) :
  forall a, nonpos (fold_left Flt.maximum l a) = true ->
            nonpos a = true /\ Forall (fun x => nonpos x = true) l.
Proof.
  induction l as [|x l IH]; intros a H; cbn in H.
  - split; [exact H|constructor].
  - destruct (IH _ H) as [Hax Hl].
    destruct (maximum_nonpos _ _ Hax) as [Ha Hx].
    split; [exact Ha|now constructor].
Qed.

(** A cell at or below zero, clipped at zero, is a zero. *)
Lemma clip_nonpos (x : spec_float) :
  nonpos x = true -> is_zero (Flt.maximum x Flt.zero) = true.
Proof. now destruct x as [[]|[]| |[] m e]. Qed.

(** With a zero maximum [grad_cam]'s division makes every cell NaN. *)
Lemma clip_and_divide_zero_max (prec emax : Z) (hm : tensor) (s : bool) :
  reduce_max hm = S754_zero s ->
  t_data (clip_and_divide prec emax hm (reduce_max hm))
  = replicate (length (t_data hm)) S754_nan.
Proof.
  intros Hmax. rewrite Hmax. unfold clip_and_divide. cbn [t_data].
  unfold reduce_max in Hmax.
  assert (Forall (fun x => nonpos x = true) (t_data hm)) as Hall.
  { apply (fold_maximum_nonpos _ (S754_infinity true)). now rewrite Hmax. }
  clear Hmax.
  induction Hall as [|x l Hx Hl IH]; cbn [map length replicate];
    [reflexivity|].
  cbv beta in Hx.
  rewrite zero_div_zero by (apply clip_nonpos; exact Hx). now rewrite IH.
Qed.

(** What lines 114 to 116 do to a stored heatmap with cells [x :: b]. *)
Lemma normalize_run (hm : ndarray) (st : store) (x : spec_float) (b : buffer) :
  st !! nd_buf hm = Some (x :: b) ->
  let m := fold_left Flt.maximum b x in
  let scaled := map (fun c => F64.mul c (F64.of_Z 255))
                  (map (fun c => F64.div c m) (x :: b)) in
  normalize_to_uint8 hm st
  = (Ok (U8Array (nd_shape hm) (map u8_of_float scaled)),
     <[nd_buf hm := scaled]> st).
Proof.
  intros Hb m scaled. pose proof (lookup_lt_Some _ _ _ Hb) as Hlt.
  unfold normalize_to_uint8, np_max, idiv, imul, astype_uint8.
  unfold bind, load, save, ret. cbn [fst snd].
  rewrite Hb. cbn [default from_option id fst snd].
  rewrite !list_lookup_insert_eq by (rewrite ?length_insert; assumption).
  rewrite ?Hb. cbn [default from_option id].
  now rewrite list_insert_insert_eq.
Qed.

End ZeroMax.

(** * Runs of [occlusion_test] on partitions it cannot index *)

Lemma insert_sorted_not_nil (x : Z) (l : list Z) : insert_sorted x l <> [].
Proof.
  destruct l as [|y l]; cbn; [congruence|].
  destruct (x <? y); [congruence|]. destruct (x =? y); congruence.
Qed.

Lemma fold_insert_not_nil (l : list Z) :
  forall acc, l <> [] \/ acc <> [] ->
              fold_left (fun acc x => insert_sorted x acc) l acc <> [].
Proof.
  induction l as [|x l IH]; intros acc H; cbn [fold_left].
  - destruct H; congruence.
  - apply IH. right. apply insert_sorted_not_nil.
Qed.

Lemma np_unique_not_nil (z : zones) : z_data z <> [] -> np_unique z <> [].
Proof. intros H. apply fold_insert_not_nil. now left. Qed.

Lemma np_unique_zeros (z : zones) :
  z_data z <> [] -> Forall (fun x => x = 0) (z_data z) -> np_unique z = [0].
Proof.
  unfold np_unique. intros Hne Hall.
  destruct (z_data z) as [|x l]; [congruence|].
  apply Forall_cons in Hall as [-> Hall]. cbn [fold_left insert_sorted].
  clear Hne. induction Hall as [|y l -> _ IH]; [reflexivity|exact IH].
Qed.

(** Single steps, as equations. *)

Lemma np_reshape_run (a : ndarray) (s : shape) (st : store) :
  size_of (nd_shape a) = size_of s ->
  np_reshape a s st = (Ok (NdArray (nd_buf a) s), st).
Proof. intros H. unfold np_reshape. now rewrite H, Z.eqb_refl. Qed.

Lemma np_copy_run (a : ndarray) (st : store) :
  np_copy a st
  = (Ok (NdArray (length st) (nd_shape a)),
     st ++ [default [] (st !! nd_buf a)]).
Proof. reflexivity. Qed.

Lemma model_predict_run (model : predictor) (a : ndarray) (st : store) :
  model_predict model a st = (Ok (model (default [] (st !! nd_buf a))), st).
Proof. reflexivity. Qed.

Lemma np_zeros_run (s : shape) (st : store) :
  np_zeros s st
  = (Ok (NdArray (length st) s),
     st ++ [replicate (Z.to_nat (size_of s)) Flt.zero]).
Proof. reflexivity. Qed.

Lemma setitem_misfit (a : ndarray) (j ext : Z) (m : mask) (v : spec_float)
    (st : store) :
  nd_shape a !! 2%nat = Some ext ->
  0 <= j < ext ->
  mask_fits (m_shape m) (delete 2%nat (nd_shape a)) = false ->
  setitem_axis2_mask a j m v st = (Raise IndexError, st).
Proof.
  intros Hext Hj Hfit. unfold setitem_axis2_mask. rewrite Hext, Hfit.
  now replace ((0 <=? j) && (j <? ext)) with true by lia.
Qed.

Lemma lookup_fresh (st : store) (b : buffer) : (st ++ [b]) !! length st = Some b.
Proof. rewrite lookup_app_r by lia. now rewrite Nat.sub_diag. Qed.

(** The first iteration already fails when the boolean index does not fit
    the view [img_ocluded[:, :, 0]], whose shape is (1, 224, 3). *)
Lemma occlusion_index_error (batch_img : ndarray) (model : predictor)
    (z : zones) (st : store) :
  size_of (nd_shape batch_img) = 150528 ->
  model (default [] (st !! nd_buf batch_img)) <> [] ->
  z_data z <> [] ->
  mask_fits (z_shape z) [1; 224; 3] = false ->
  fst (occlusion_test batch_img model z st) = Raise IndexError.
Proof.
  intros Hsize Hmodel Hz Hfit.
  destruct (np_argmax_lt _ Hmodel) as (i & Hi & _).
  destruct (np_unique z) as [|u us] eqn:Hu;
    [now apply np_unique_not_nil in Hu|].
  unfold occlusion_test. erewrite bind_raise; [reflexivity|].
  unfold occlusion_heatmap.
  erewrite bind_ok by (apply np_reshape_run; rewrite Hsize; reflexivity).
  erewrite bind_ok by apply np_copy_run.
  erewrite bind_ok by apply model_predict_run.
  cbn [nd_buf nd_shape]. rewrite lookup_fresh. cbn [default from_option id].
  erewrite bind_ok by (unfold lift; rewrite Hi; reflexivity).
  erewrite bind_ok by apply np_zeros_run.
  erewrite bind_raise; [reflexivity|].
  rewrite Hu. cbn [for_each].
  erewrite bind_raise; [reflexivity|].
  unfold occlusion_body.
  erewrite bind_ok by apply np_copy_run.
  erewrite bind_raise; [reflexivity|].
  apply (setitem_misfit _ _ 224); [reflexivity|lia|exact Hfit].
Qed.

(** * Runs of [occlusion_test] as a whole *)

(** With a partition whose shape the masked assignments accept, the call
    returns an array of the heatmap's shape. *)
Lemma occlusion_returns (batch_img : ndarray) (model : predictor)
    (classes : nat) (z : zones) (st : store) :
  size_of (nd_shape batch_img) = 150528 ->
  (0 < classes)%nat ->
  (forall b, length (model b) = classes) ->
  mask_fits (z_shape z) [1; 224] = true ->
  exists out st',
    occlusion_test batch_img model z st = (Ok out, st')
    /\ u8_shape out = [1; 224; 224]
    /\ length (u8_data out) = Z.to_nat 50176.
Proof.
  intros Hsize Hpos Hlen Hfit.
  pose proof (heatmap_returns model classes Hpos Hlen z Hfit batch_img Hsize
                st Logic.I) as Hrun.
  unfold occlusion_test, bind.
  destruct (occlusion_heatmap batch_img model z st) as [[hm|e] st1];
    cbn in Hrun; [|contradiction].
  destruct Hrun as [Hshape Hholds].
  destruct (holds_lookup (nd_buf hm) (Z.to_nat 50176) ltac:(lia) st1 Hholds)
    as (b & Hb & Hblen).
  destruct b as [|x b]; [cbn in Hblen; lia|].
  rewrite (normalize_run hm st1 x b Hb).
  eexists _, _. split; [reflexivity|]. cbn [u8_shape u8_data].
  split; [exact Hshape|]. now rewrite !length_map.
Qed.

Lemma fold_maximum_zeros (n : nat) :
  fold_left Flt.maximum (replicate n Flt.zero) Flt.zero = Flt.zero.
Proof. induction n as [|n IH]; [reflexivity|exact IH]. Qed.

(** The run of lines 87 to 112 on a partition without cells: the loop does
    not run and the heatmap stays zero. *)
Lemma occlusion_heatmap_empty_run (batch_img : ndarray) (model : predictor)
    (st : store) :
  size_of (nd_shape batch_img) = 150528 ->
  model (default [] (st !! nd_buf batch_img)) <> [] ->
  let b0 := default [] (st !! nd_buf batch_img) in
  let zeros := replicate (Z.to_nat 50176) Flt.zero in
  occlusion_heatmap batch_img model Ex.zones_empty st
  = (Ok (NdArray (length (st ++ [b0])) [1; 224; 224]), (st ++ [b0]) ++ [zeros]).
Proof.
  intros Hsize Hmodel b0 zeros.
  destruct (np_argmax_lt _ Hmodel) as (i & Hi & _).
  unfold occlusion_heatmap.
  erewrite bind_ok by (apply np_reshape_run; rewrite Hsize; reflexivity).
  erewrite bind_ok by apply np_copy_run.
  erewrite bind_ok by apply model_predict_run.
  cbn [nd_buf nd_shape]. rewrite lookup_fresh. cbn [default from_option id].
  erewrite bind_ok by (unfold lift; rewrite Hi; reflexivity).
  erewrite bind_ok by apply np_zeros_run.
  reflexivity.
Qed.

(** * The claims about [occlusion_test] *)

(** C1, as the code has it: there is no EmptyRegionPartition condition.
    Identifier 0 is a region like any other: for a partition whose only
    identifier is 0 the loop runs once, for region 0, and when the
    partition has a shape that the masked assignments accept (a leading
    part of (1, 224)) the call returns a heatmap of shape (1, 224, 224). *)
Theorem occlusion_zero_partition (batch_img : ndarray) (model : predictor)
    (classes : nat) (z : zones) (st : store) :
  size_of (nd_shape batch_img) = 150528 ->
  (0 < classes)%nat ->
  (forall b, length (model b) = classes) ->
  mask_fits (z_shape z) [1; 224] = true ->
  z_data z <> [] ->
  Forall (fun x => x = 0) (z_data z) ->
  np_unique z = [0]
  /\ exists out st',
      occlusion_test batch_img model z st = (Ok out, st')
      /\ u8_shape out = [1; 224; 224].
Proof.
  intros Hsize Hpos Hlen Hfit Hne Hall. split.
  - now apply np_unique_zeros.
  - destruct (occlusion_returns batch_img model classes z st Hsize Hpos Hlen Hfit)
      as (out & st' & Hrun & Hshape & _).
    now exists out, st'.
Qed.

Lemma toy_two_classes (b : buffer) : length (Ex.toy b) = 2%nat.
Proof. unfold Ex.toy. now destruct b as [|[] b]. Qed.

Lemma occlusion_zero_partition_witness :
  np_unique Ex.zones_row_of_zeros = [0]
  /\ exists out st',
      occlusion_test Ex.batch Ex.toy Ex.zones_row_of_zeros Ex.st0 = (Ok out, st')
      /\ u8_shape out = [1; 224; 224].
Proof.
  apply (occlusion_zero_partition Ex.batch Ex.toy 2 Ex.zones_row_of_zeros Ex.st0).
  - reflexivity.
  - lia.
  - exact toy_two_classes.
  - reflexivity.
  - discriminate.
  - apply Forall_forall. intros x Hx. now apply elem_of_replicate in Hx.
Defined.

(** C1, refuted as it stands: on a partition whose only identifier is 0 the
    call returns a heatmap. *)
Lemma zero_partition_returns_heatmap :
  np_unique Ex.zones_row_of_zeros = [0]
  /\ exists out st',
      occlusion_test Ex.batch Ex.toy Ex.zones_row_of_zeros Ex.st0 = (Ok out, st')
      /\ u8_shape out = [1; 224; 224]
      /\ length (u8_data out) = Z.to_nat 50176.
Proof.
  split; [reflexivity|].
  apply (occlusion_returns Ex.batch Ex.toy 2); [reflexivity|lia| |reflexivity].
  exact toy_two_classes.
Qed.

(** C6, at a partition of shape (224, 224) with one region that covers the
    whole image: the masked assignment of line 102 raises IndexError, the
    view [img_ocluded[:, :, 0]] being of shape (1, 224, 3). *)
Theorem whole_image_partition_raises :
  fst (occlusion_test Ex.batch Ex.toy Ex.zones_whole_image Ex.st0)
  = Raise IndexError.
Proof.
  apply occlusion_index_error.
  - reflexivity.
  - unfold Ex.toy. now destruct (default [] _) as [|[] ?].
  - unfold Ex.zones_whole_image. cbn [z_data].
    replace (Z.to_nat 50176) with (S (Z.to_nat 50175)) by lia. discriminate.
  - reflexivity.
Qed.

(** C8: the caller's image batch is unchanged by the call, as is every
    buffer that existed before it; masking is done on copies. *)
Theorem occlusion_test_keeps_input (batch_img : ndarray) (model : predictor)
    (z : zones) (st : store) :
  (nd_buf batch_img < length st)%nat ->
  snd (occlusion_test batch_img model z st) !! nd_buf batch_img
  = st !! nd_buf batch_img
  /\ forall a, (a < length st)%nat ->
               snd (occlusion_test batch_img model z st) !! a = st !! a.
Proof.
  intros Hb.
  destruct (frame_occlusion_test st batch_img model z st (extends_refl st))
    as [Hext _].
  split; [|intros a Ha]; now apply extends_lookup.
Qed.

Lemma occlusion_test_keeps_input_witness :
  snd (occlusion_test Ex.batch Ex.toy Ex.zones_row_of_zeros Ex.st0) !! 0%nat
  = Some Ex.img.
Proof.
  exact (proj1 (occlusion_test_keeps_input Ex.batch Ex.toy Ex.zones_row_of_zeros
                  Ex.st0 (Nat.lt_0_succ 0))).
Defined.

(** * The claims about the normalizing division *)

(** C2, as the code has it: neither function tests the maximum.  When the
    maximum of the map before normalization is a zero, [grad_cam] returns,
    and every cell of its heatmap is NaN; [occlusion_test] returns too, every
    cell of its float heatmap is NaN or infinite after the division, and
    every byte of the array it returns is left unspecified by the cast. *)
Theorem zero_maximum_is_divided :
  (forall (prec emax : Z) (image : Type) (img_array : image)
          (model : keras_model image) (name : string)
          (pred_index : option nat) (hm : tensor) (s : bool),
      weighted_activation prec emax img_array model name pred_index = Ok hm ->
      reduce_max hm = S754_zero s ->
      grad_cam prec emax img_array model name pred_index
      = Ok (Tensor (t_shape hm) (replicate (length (t_data hm)) S754_nan)))
  /\ (forall (batch_img : ndarray) (model : predictor) (z : zones)
             (st st1 : store) (hm : ndarray) (s : bool),
         occlusion_heatmap batch_img model z st = (Ok hm, st1) ->
         fst (np_max hm st1) = Ok (S754_zero s) ->
         exists out st2,
           occlusion_test batch_img model z st = (Ok out, st2)
           /\ Forall (fun x => Flt.is_finite x = false)
                (default [] (st2 !! nd_buf hm))
           /\ u8_data out
              = replicate (length (default [] (st1 !! nd_buf hm)))
                  U8_unspecified).
Proof.
  split.
  - intros prec emax image img_array model name pred_index hm s Hmap Hmax.
    unfold grad_cam. rewrite Hmap. cbn [rbind]. f_equal.
    pose proof (clip_and_divide_zero_max prec emax hm s Hmax) as Hdata.
    destruct (clip_and_divide prec emax hm (reduce_max hm)) as [sh data] eqn:E.
    cbn [t_data] in Hdata. subst data. f_equal.
    unfold clip_and_divide in E. now injection E as <- _.
  - intros batch_img model z st st1 hm s Hrun Hmax.
    unfold occlusion_test. erewrite bind_ok by exact Hrun.
    unfold np_max, bind, load, ret in Hmax. cbn [fst snd] in Hmax.
    destruct (st1 !! nd_buf hm) as [[|x b]|] eqn:Hb;
      cbn [default from_option id] in Hmax; try discriminate.
    cbn [fst] in Hmax. injection Hmax as Hmax.
    rewrite (normalize_run hm st1 x b Hb).
    eexists _, _. split; [reflexivity|]. cbn [u8_data default from_option id].
    rewrite list_lookup_insert_eq by (eapply lookup_lt_Some; eassumption).
    cbn [default from_option id]. rewrite Hmax.
    assert (Forall (fun y => Flt.is_finite y = false)
              (map (fun c => F64.mul c (F64.of_Z 255))
                 (map (fun c => F64.div c (S754_zero s)) (x :: b)))) as Hall.
    { rewrite map_map. apply Forall_map, Forall_forall. intros c _.
      apply mul_255_not_finite, div_by_zero_not_finite. }
    split; [exact Hall|].
    revert Hall. generalize (x :: b). intros l.
    induction l as [|c l IH]; cbn [map length replicate]; intros Hall;
      [reflexivity|].
    apply Forall_cons in Hall as [Hc Hl].
    rewrite (u8_of_not_finite _ Hc). f_equal. exact (IH Hl).
Qed.

Lemma zero_maximum_is_divided_witness :
  grad_cam 24 128 tt Ex.cnn_dark "conv" None
  = Ok (Tensor [2; 2]%nat (replicate 4 S754_nan))
  /\ exists out st2,
      occlusion_test Ex.batch Ex.toy Ex.zones_empty Ex.st0 = (Ok out, st2)
      /\ Forall (fun x => Flt.is_finite x = false) (default [] (st2 !! 2%nat))
      /\ u8_data out = replicate (Z.to_nat 50176) U8_unspecified.
Proof.
  assert (Ex.toy (default [] (Ex.st0 !! nd_buf Ex.batch)) <> []) as Hmodel.
  { unfold Ex.toy. now destruct (default [] _) as [|[] ?]. }
  pose proof (occlusion_heatmap_empty_run Ex.batch Ex.toy Ex.st0 eq_refl Hmodel)
    as Hrun. cbv zeta in Hrun.
  split.
  - exact (proj1 zero_maximum_is_divided 24 128 unit tt Ex.cnn_dark "conv"%string
             None (Tensor [2; 2]%nat (replicate 4 Flt.zero)) false
             eq_refl eq_refl).
  - destruct (proj2 zero_maximum_is_divided Ex.batch Ex.toy Ex.zones_empty
                Ex.st0 _ _ false Hrun) as (out & st2 & Hout & Hcells & Hbytes).
    + unfold np_max, bind, load, ret. cbn [fst snd nd_buf].
      rewrite lookup_fresh. cbn [default from_option id].
      replace (Z.to_nat 50176) with (S (Z.to_nat 50175)) by lia.
      cbn [replicate fst]. apply (f_equal Ok). apply fold_maximum_zeros.
    + exists out, st2. split; [exact Hout|].
      cbn [nd_buf] in Hcells, Hbytes. rewrite lookup_fresh in Hbytes.
      cbn [default from_option id] in Hbytes.
      rewrite length_replicate in Hbytes.
      split; [exact Hcells|exact Hbytes].
Defined.

(** C2, refuted as it stands: on a layer whose activations are all zero the
    maximum of the map is zero, and [grad_cam] returns a heatmap of NaN
    cells; on a partition without cells [occlusion_test] returns as well. *)
Lemma zero_maximum_returns_nan :
  weighted_activation 24 128 tt Ex.cnn_dark "conv" None
  = Ok (Tensor [2; 2]%nat [Flt.zero; Flt.zero; Flt.zero; Flt.zero])
  /\ grad_cam 24 128 tt Ex.cnn_dark "conv" None
     = Ok (Tensor [2; 2]%nat [S754_nan; S754_nan; S754_nan; S754_nan]).
Proof. split; reflexivity. Qed.

(** * The default class of [grad_cam] *)

(** C7: [grad_cam] called with the arg-max of the prediction vector as
    [pred_index] returns what it returns without [pred_index]. *)
Theorem grad_cam_default_class (prec emax : Z) (image : Type)
    (img_array : image) (model : keras_model image) (name : string) (i : nat) :
  rbind (preds_row0 (model_output model img_array)) np_argmax = Ok i ->
  grad_cam prec emax img_array model name (Some i)
  = grad_cam prec emax img_array model name None.
Proof.
  intros Hi. unfold grad_cam, weighted_activation, make_grad_model.
  destruct (layer_output model name) as [f|]; [|reflexivity].
  cbn [rbind]. now rewrite Hi.
Qed.

Lemma grad_cam_default_class_witness :
  grad_cam 24 128 tt Ex.cnn "conv" (Some 1%nat)
  = grad_cam 24 128 tt Ex.cnn "conv" None.
Proof.
  exact (grad_cam_default_class 24 128 unit tt Ex.cnn "conv"%string 1 eq_refl).
Defined.

(** * Rounding of quotients

    The rounding of [SFdiv], followed far enough to bound a quotient of
    two positive cells by 1 and to divide a cell by itself. *)

Section Digits.

Lemma digits2_pos_bounds (m : positive) :
  2 ^ (Z.pos (digits2_pos m) - 1) <= Z.pos m < 2 ^ Z.pos (digits2_pos m).
Proof.
  induction m as [m IH|m IH|]; cbn [digits2_pos].
  - rewrite Pos2Z.inj_succ. replace (Z.succ (Z.pos (digits2_pos m)) - 1)
      with (Z.succ (Z.pos (digits2_pos m) - 1)) by lia.
    rewrite !Z.pow_succ_r by lia. lia.
  - rewrite Pos2Z.inj_succ. replace (Z.succ (Z.pos (digits2_pos m)) - 1)
      with (Z.succ (Z.pos (digits2_pos m) - 1)) by lia.
    rewrite !Z.pow_succ_r by lia. lia.
  - cbn. lia.
Qed.

(** A mantissa below [2 ^ k] has at most [k] digits. *)
Lemma Zdigits2_le (n k : Z) : 0 <= k -> 0 <= n < 2 ^ k -> Zdigits2 n <= k.
Proof.
  intros Hk [Hn Hlt]. destruct n as [|m|m]; cbn; [lia| |lia].
  pose proof (digits2_pos_bounds m) as [Hlo _].
  destruct (Z_le_gt_dec (Z.pos (digits2_pos m)) k) as [|Hgt]; [assumption|].
  exfalso.
  assert (2 ^ k <= 2 ^ (Z.pos (digits2_pos m) - 1))
    by (apply Z.pow_le_mono_r; lia).
  lia.
Qed.

End Digits.

Section Shifts.

Lemma iter_pos_nat {X} (f : X -> X) (p : positive) :
  forall x, SpecFloat.iter_pos f p x = Nat.iter (Pos.to_nat p) f x.
Proof.
  induction p as [p IH|p IH|]; intros x; cbn [SpecFloat.iter_pos].
  - rewrite !IH, Pos2Nat.inj_xI.
    replace (S (2 * Pos.to_nat p))
      with (Pos.to_nat p + (Pos.to_nat p + 1))%nat by lia.
    rewrite !Nat.iter_add. reflexivity.
  - rewrite !IH, Pos2Nat.inj_xO.
    replace (2 * Pos.to_nat p)%nat with (Pos.to_nat p + Pos.to_nat p)%nat by lia.
    rewrite Nat.iter_add. reflexivity.
  - reflexivity.
Qed.

Lemma shr_1_m (mrs : shr_record) :
  0 <= shr_m mrs -> shr_m (shr_1 mrs) = shr_m mrs / 2.
Proof.
  destruct mrs as [m r s]. cbn [shr_m]. intros Hm.
  destruct m as [|[q|q|]|q]; cbn [shr_1 shr_m];
    Z.to_euclidean_division_equations; lia.
Qed.

Lemma shr_1_exact (mrs : shr_record) :
  0 <= shr_m mrs -> is_exact mrs = true -> shr_m mrs mod 2 = 0 ->
  is_exact (shr_1 mrs) = true.
Proof.
  destruct mrs as [m [] []]; cbn [shr_m is_exact shr_r shr_s negb andb];
    intros Hm He Hmod; try discriminate.
  destruct m as [|[q|q|]|q]; cbn;
    first [reflexivity|Z.to_euclidean_division_equations; lia].
Qed.

Lemma iter_shr_m (k : nat) :
  forall mrs, 0 <= shr_m mrs ->
              shr_m (Nat.iter k shr_1 mrs) = shr_m mrs / 2 ^ Z.of_nat k.
Proof.
  induction k as [|k IH]; intros mrs Hm.
  - cbn. now rewrite Z.div_1_r.
  - rewrite Nat.iter_succ_r, IH by (rewrite shr_1_m by assumption;
                                    apply Z.div_pos; lia).
    rewrite shr_1_m by assumption.
    rewrite Nat2Z.inj_succ, Z.pow_succ_r by lia.
    rewrite Z.div_div by lia. reflexivity.
Qed.

Lemma iter_shr_exact (k : nat) :
  forall mrs, 0 <= shr_m mrs -> is_exact mrs = true ->
              shr_m mrs mod 2 ^ Z.of_nat k = 0 ->
              is_exact (Nat.iter k shr_1 mrs) = true.
Proof.
  induction k as [|k IH]; intros mrs Hm He Hmod; [exact He|].
  rewrite Nat2Z.inj_succ, Z.pow_succ_r in Hmod by lia.
  assert (0 < 2 ^ Z.of_nat k) as Hpow by (apply Z.pow_pos_nonneg; lia).
  assert (shr_m mrs = 2 * (2 ^ Z.of_nat k * (shr_m mrs / (2 * 2 ^ Z.of_nat k))))
    as Hdiv.
  { pose proof (Z.div_mod (shr_m mrs) (2 * 2 ^ Z.of_nat k) ltac:(lia)). lia. }
  rewrite Nat.iter_succ_r. apply IH.
  - rewrite shr_1_m by assumption. apply Z.div_pos; lia.
  - apply shr_1_exact; [assumption|assumption|].
    rewrite Hdiv, Z.mul_comm. apply Z.mod_mul. lia.
  - rewrite shr_1_m by assumption.
    rewrite Hdiv at 1. rewrite (Z.mul_comm 2), Z.div_mul by lia.
    rewrite Z.mul_comm. apply Z.mod_mul. lia.
Qed.

Lemma record_of_loc_m (n : Z) (l : location) : shr_m (shr_record_of_loc n l) = n.
Proof. now destruct l as [|[]]. Qed.

Lemma loc_of_exact (mrs : shr_record) :
  is_exact mrs = true -> loc_of_shr_record mrs = loc_Exact.
Proof. now destruct mrs as [m [] []]. Qed.

End Shifts.

Section Rounding.

Variables prec emax : Z.
Hypothesis prec_gt_1 : 1 < prec.
Hypothesis prec_lt_emax : prec < emax.

Lemma fexp_le (x : Z) : x <= 1 -> fexp prec emax x <= 1 - prec.
Proof. unfold fexp, emin. lia. Qed.

(** The shift that brings a mantissa to its canonical exponent. *)
Lemma shr_fexp_spec (n e : Z) (l : location) :
  0 <= n ->
  exists mrs,
    let e1 := Z.max e (fexp prec emax (Zdigits2 n + e)) in
    shr_fexp prec emax n e l = (mrs, e1)
    /\ shr_m mrs = n / 2 ^ (e1 - e)
    /\ (l = loc_Exact -> n mod 2 ^ (e1 - e) = 0 -> is_exact mrs = true)
    /\ (e1 = e -> mrs = shr_record_of_loc n l).
Proof.
  intros Hn. unfold shr_fexp, shr.
  destruct (fexp prec emax (Zdigits2 n + e) - e) as [|k|k] eqn:Hk.
  - exists (shr_record_of_loc n l). cbv zeta.
    replace (Z.max e (fexp prec emax (Zdigits2 n + e))) with e by lia.
    rewrite Z.sub_diag, Z.div_1_r, record_of_loc_m.
    repeat split; try reflexivity. now intros ->.
  - exists (SpecFloat.iter_pos shr_1 k (shr_record_of_loc n l)). cbv zeta.
    replace (Z.max e (fexp prec emax (Zdigits2 n + e))) with (e + Z.pos k) by lia.
    replace (e + Z.pos k - e) with (Z.pos k) by lia.
    rewrite iter_pos_nat, <- (positive_nat_Z k).
    repeat split.
    + rewrite iter_shr_m, record_of_loc_m by now rewrite record_of_loc_m.
      reflexivity.
    + intros -> Hmod. apply iter_shr_exact;
        [now rewrite record_of_loc_m|reflexivity|now rewrite record_of_loc_m].
    + lia.
  - exists (shr_record_of_loc n l). cbv zeta.
    replace (Z.max e (fexp prec emax (Zdigits2 n + e))) with e by lia.
    rewrite Z.sub_diag, Z.div_1_r, record_of_loc_m.
    repeat split; try reflexivity. now intros ->.
Qed.

Lemma below_one_digits (n e : Z) (ex : bool) :
  below_one n e ex -> Zdigits2 n + e <= 1.
Proof.
  intros (Hn & He & Hb).
  assert (0 < 2 ^ (- e)) by (apply Z.pow_pos_nonneg; lia).
  assert (Zdigits2 n <= - e + 1); [|lia].
  apply Zdigits2_le; [lia|]. rewrite Z.pow_add_r by lia. lia.
Qed.

(** Shifting to a higher exponent keeps the bound. *)
Lemma below_one_shift (n e e1 : Z) (ex ex1 : bool) :
  below_one n e ex ->
  e <= e1 <= 0 ->
  (ex = true -> n mod 2 ^ (e1 - e) = 0 -> ex1 = true) ->
  below_one (n / 2 ^ (e1 - e)) e1 ex1.
Proof.
  intros (Hn & He & Hb) He1 Hex.
  assert (0 < 2 ^ (e1 - e)) as Hk by (apply Z.pow_pos_nonneg; lia).
  assert (0 < 2 ^ (- e1)) as Hk1 by (apply Z.pow_pos_nonneg; lia).
  assert (2 ^ (- e) = 2 ^ (- e1) * 2 ^ (e1 - e)) as Hsplit.
  { rewrite <- Z.pow_add_r by lia. f_equal. lia. }
  repeat split; [apply Z.div_pos; lia|lia|].
  destruct Hb as [Hlt|[Heq Hexact]].
  - left. apply Z.div_lt_upper_bound; [lia|]. rewrite Z.mul_comm. lia.
  - right. rewrite Heq, Hsplit, Z.div_mul by lia. split; [reflexivity|].
    apply Hex; [assumption|]. rewrite Heq, Hsplit. apply Z.mod_mul. lia.
Qed.

Lemma round_nearest_even_bounds (n : Z) (l : location) :
  n <= round_nearest_even n l <= n + 1
  /\ (l = loc_Exact -> round_nearest_even n l = n).
Proof.
  split.
  - destruct l as [|[]]; cbn; try lia. destruct (Z.even n); lia.
  - now intros ->.
Qed.

Lemma one_of_pos : Z.pos (Z.to_pos (2 ^ (prec - 1))) = 2 ^ (prec - 1).
Proof.
  apply Z2Pos.id. apply Z.pow_pos_nonneg; lia.
Qed.

(** The rounding of a mantissa whose value does not exceed 1 is a cell of
    [0, 1]. *)
Lemma round_below_one (n e : Z) (l : location) :
  below_one n e (match l with loc_Exact => true | _ => false end) ->
  e <= 1 - prec ->
  let r := binary_round_aux prec emax false n e l in
  SFleb Flt.zero r = true /\ SFleb r (one_of prec) = true.
Proof.
  intros Hb He. unfold binary_round_aux.
  pose proof Hb as (Hn & _ & _).
  destruct (shr_fexp_spec n e l Hn) as (mrs1 & Hrun1 & Hm1 & Hex1 & _).
  cbv zeta in Hrun1. rewrite Hrun1.
  set (e1 := Z.max e (fexp prec emax (Zdigits2 n + e))) in *.
  assert (e <= e1 <= 1 - prec) as He1.
  { pose proof (fexp_le _ (below_one_digits _ _ _ Hb)). lia. }
  assert (below_one (shr_m mrs1) e1 (is_exact mrs1)) as Hb1.
  { rewrite Hm1. apply (below_one_shift _ _ _ _ _ Hb); [lia|].
    intros Hl. apply Hex1. now destruct l. }
  set (n1 := round_nearest_even (shr_m mrs1) (loc_of_shr_record mrs1)).
  assert (below_one n1 e1 true) as Hb1'.
  { destruct Hb1 as (Hn1 & He1' & Hcase).
    pose proof (round_nearest_even_bounds (shr_m mrs1) (loc_of_shr_record mrs1))
      as [Hr Hrex]. fold n1 in Hr, Hrex.
    repeat split; [lia|lia|].
    destruct Hcase as [Hlt|[Heq Hexact]].
    - destruct (Z.eq_dec n1 (2 ^ (- e1))); [now right|left; lia].
    - right. split; [|reflexivity].
      rewrite Hrex by now apply loc_of_exact. exact Heq. }
  pose proof Hb1' as (Hn1 & _ & _).
  destruct (shr_fexp_spec n1 e1 loc_Exact Hn1) as (mrs2 & Hrun2 & Hm2 & _ & _).
  cbv zeta in Hrun2. rewrite Hrun2.
  set (e2 := Z.max e1 (fexp prec emax (Zdigits2 n1 + e1))) in *.
  assert (e1 <= e2 <= 1 - prec) as He2.
  { pose proof (fexp_le _ (below_one_digits _ _ _ Hb1')). lia. }
  assert (below_one (shr_m mrs2) e2 true) as Hb2.
  { rewrite Hm2. apply (below_one_shift _ _ _ _ _ Hb1'); [lia|reflexivity]. }
  destruct Hb2 as (Hn2 & _ & Hle2).
  assert (shr_m mrs2 <= 2 ^ (- e2)) as Hle by (destruct Hle2 as [|[-> _]]; lia).
  destruct (shr_m mrs2) as [|m2|m2]; [now split| |lia].
  replace (e2 <=? emax - prec) with true by lia.
  split; [reflexivity|].
  unfold SFleb, SFcompare, one_of.
  destruct (Z.compare_spec e2 (1 - prec)) as [Heq|Hlt|Hgt]; [|reflexivity|lia].
  change (Pos.compare_cont Eq m2 (Z.to_pos (2 ^ (prec - 1))))
    with (Pos.compare m2 (Z.to_pos (2 ^ (prec - 1)))).
  destruct (Pos.compare_spec m2 (Z.to_pos (2 ^ (prec - 1)))) as [| |Hgt];
    [reflexivity|reflexivity|].
  exfalso. apply Pos2Z.pos_lt_pos in Hgt. rewrite one_of_pos in Hgt.
  rewrite Heq in Hle. replace (- (1 - prec)) with (prec - 1) in Hle by lia. lia.
Qed.

End Rounding.

Section Division.

Variables prec emax : Z.
Hypothesis prec_gt_1 : 1 < prec.
Hypothesis prec_lt_emax : prec < emax.

(** What [bounded] says of a mantissa: at most [prec] digits, an exponent
    at or above [emin], and a full mantissa above [emin]. *)
Lemma bounded_facts (m : positive) (e : Z) :
  bounded prec emax m e = true ->
  Z.pos (digits2_pos m) <= prec
  /\ emin prec emax <= e <= emax - prec
  /\ (emin prec emax < e -> Z.pos (digits2_pos m) = prec).
Proof.
  unfold bounded, canonical_mantissa, fexp. intros H.
  apply andb_prop in H as [Hc He].
  apply Z.eqb_eq in Hc. apply Z.leb_le in He. lia.
Qed.

(** The order of [SFcompare] on two positive finite cells. *)
Lemma SFleb_finite_pos (mx my : positive) (ex ey : Z) :
  SFleb (S754_finite false mx ex) (S754_finite false my ey) = true ->
  ex < ey \/ (ex = ey /\ Z.pos mx <= Z.pos my).
Proof.
  unfold SFleb, SFcompare.
  destruct (Z.compare_spec ex ey) as [Heq|Hlt|Hgt]; [|now left|discriminate].
  change (Pos.compare_cont Eq mx my) with (Pos.compare mx my).
  destruct (Pos.compare_spec mx my) as [->|Hlt|Hgt]; try discriminate;
    intros _; right; split; try assumption; lia.
Qed.

Lemma new_location_zero (nb : Z) : new_location nb 0 = loc_Exact.
Proof. unfold new_location. now destruct (Z.even nb). Qed.

(** The quotient of two valid positive cells, the first at most the
    second, lies in [0, 1]. *)
Lemma div_le_one (mx my : positive) (ex ey : Z) :
  bounded prec emax mx ex = true ->
  bounded prec emax my ey = true ->
  SFleb (S754_finite false mx ex) (S754_finite false my ey) = true ->
  let q := SFdiv prec emax (S754_finite false mx ex) (S754_finite false my ey) in
  SFleb Flt.zero q = true /\ SFleb q (one_of prec) = true.
Proof.
  intros Hbx Hby Hle.
  destruct (bounded_facts _ _ Hbx) as (Hdx & Hex & Hnx).
  destruct (bounded_facts _ _ Hby) as (Hdy & Hey & Hny).
  apply SFleb_finite_pos in Hle.
  pose proof (digits2_pos_bounds mx) as [Hlox Hhix].
  pose proof (digits2_pos_bounds my) as [Hloy Hhiy].
  cbv zeta. unfold SFdiv, SFdiv_core_binary. cbn [Zdigits2 xorb].
  set (d1 := Z.pos (digits2_pos mx)) in *.
  set (d2 := Z.pos (digits2_pos my)) in *.
  set (e' := Z.min (fexp prec emax (d1 + ex - (d2 + ey))) (ex - ey)).
  set (s := ex - ey - e').
  set (m' := match s with
             | 0 => Z.pos mx
             | Z.pos _ => Z.shiftl (Z.pos mx) s
             | Z.neg _ => 0
             end).
  assert (d1 + ex - (d2 + ey) <= 1) as Hd.
  { destruct Hle as [Hlt|[-> Hm]].
    - rewrite Hny by lia. lia.
    - destruct (Z_le_gt_dec d1 d2) as [|Hgt]; [lia|].
      assert (2 ^ d2 <= 2 ^ (d1 - 1)) by (apply Z.pow_le_mono_r; lia). lia. }
  assert (e' <= 1 - prec) as He'.
  { pose proof (fexp_le prec emax prec_gt_1 prec_lt_emax _ Hd). lia. }
  assert (0 <= s) as Hs by lia.
  assert (m' = Z.pos mx * 2 ^ s) as Hm'.
  { unfold m'. destruct s as [|k|k] eqn:Es; [lia| |lia].
    apply Z.shiftl_mul_pow2. lia. }
  assert (0 < 2 ^ s) as Hpows by (apply Z.pow_pos_nonneg; lia).
  assert (m' <= Z.pos my * 2 ^ (- e')) as Hbound.
  { rewrite Hm'. destruct Hle as [Hlt|[Heq Hm]].
    - replace (- e') with ((ey - ex - 1) + 1 + s) by lia.
      rewrite !Z.pow_add_r by lia.
      assert (0 < 2 ^ (ey - ex - 1)) by (apply Z.pow_pos_nonneg; lia).
      assert (Z.pos mx <= 2 * Z.pos my).
      { assert (d2 = prec) as Hd2 by (apply Hny; lia).
        assert (2 ^ d1 <= 2 ^ prec) by (apply Z.pow_le_mono_r; lia).
        assert (2 ^ prec = 2 * 2 ^ (prec - 1)) as Hp.
        { replace prec with (Z.succ (prec - 1)) at 1 by lia.
          apply Z.pow_succ_r. lia. }
        rewrite Hd2 in Hloy. lia. }
      change (2 ^ 1) with 2.
      set (A := 2 ^ (ey - ex - 1)) in *. set (S := 2 ^ s) in *.
      assert (Z.pos mx * S <= 2 * Z.pos my * S)
        by (apply Z.mul_le_mono_nonneg_r; lia).
      assert (2 * Z.pos my * S * 1 <= 2 * Z.pos my * S * A)
        by (apply Z.mul_le_mono_nonneg_l; lia).
      lia.
    - replace (- e') with s by lia. nia. }
  pose proof (Z_div_mod m' (Z.pos my) ltac:(lia)) as Hdiv.
  destruct (Z.div_eucl m' (Z.pos my)) as [q r]. destruct Hdiv as [Hqr Hr].
  assert (0 < 2 ^ (- e')) as Hpowe by (apply Z.pow_pos_nonneg; lia).
  assert (0 <= q) as Hq by nia.
  apply (round_below_one prec emax prec_gt_1 prec_lt_emax); [|exact He'].
  repeat split; [exact Hq|lia|].
  destruct (Z_lt_le_dec q (2 ^ (- e'))) as [Hlt|Hge]; [now left|right].
  assert (q = 2 ^ (- e')) as Hqeq by nia.
  assert (r = 0) as -> by nia.
  split; [exact Hqeq|]. now rewrite new_location_zero.
Qed.

Lemma Zdigits2_pow2 (k : Z) : 0 <= k -> Zdigits2 (2 ^ k) = k + 1.
Proof.
  intros Hk.
  assert (0 < 2 ^ k) as Hpos by (apply Z.pow_pos_nonneg; lia).
  destruct (2 ^ k) as [|m|m] eqn:E; [lia| |lia]. cbn [Zdigits2].
  pose proof (digits2_pos_bounds m) as [Hlo Hhi]. rewrite <- E in Hlo, Hhi.
  apply Z.pow_lt_mono_r_iff in Hhi; [|lia|lia].
  apply Z.pow_le_mono_r_iff in Hlo; [|lia|lia]. lia.
Qed.

(** A valid positive cell divided by itself is 1.0. *)
Lemma div_self (m : positive) (e : Z) :
  bounded prec emax m e = true ->
  SFdiv prec emax (S754_finite false m e) (S754_finite false m e) = one_of prec.
Proof.
  intros Hb. unfold SFdiv, SFdiv_core_binary. cbn [Zdigits2 xorb].
  replace (Z.pos (digits2_pos m) + e - (Z.pos (digits2_pos m) + e)) with 0 by lia.
  rewrite Z.sub_diag.
  assert (fexp prec emax 0 = - prec) as Hf0 by (unfold fexp, emin; lia).
  rewrite Hf0. replace (Z.min (- prec) 0) with (- prec) by lia.
  replace (0 - - prec) with prec by lia.
  destruct prec as [|p|p] eqn:Ep; [lia| |lia]. rewrite <- Ep in *.
  rewrite Z.shiftl_mul_pow2 by lia.
  assert (0 < 2 ^ prec) as Hpow by (apply Z.pow_pos_nonneg; lia).
  pose proof (Z_div_mod (Z.pos m * 2 ^ prec) (Z.pos m) ltac:(lia)) as Hdiv.
  destruct (Z.div_eucl (Z.pos m * 2 ^ prec) (Z.pos m)) as [q r].
  destruct Hdiv as [Hqr Hr].
  assert (q = 2 ^ prec) as -> by nia. assert (r = 0) as -> by nia.
  rewrite new_location_zero. unfold binary_round_aux.
  destruct (shr_fexp_spec prec emax (2 ^ prec) (- prec) loc_Exact ltac:(lia))
    as (mrs1 & Hrun1 & Hm1 & Hex1 & _).
  cbv zeta in Hrun1. rewrite Zdigits2_pow2 in Hrun1, Hm1, Hex1 by lia.
  assert (fexp prec emax 1 = 1 - prec) as Hf1 by (unfold fexp, emin; lia).
  replace (prec + 1 + - prec) with 1 in Hrun1, Hm1, Hex1 by lia.
  rewrite Hf1 in Hrun1, Hm1, Hex1.
  replace (Z.max (- prec) (1 - prec)) with (1 - prec) in Hrun1, Hm1, Hex1 by lia.
  replace (1 - prec - - prec) with 1 in Hm1, Hex1 by lia.
  rewrite Hrun1.
  assert (2 ^ prec = 2 ^ (prec - 1) * 2 ^ 1) as Hsplit.
  { rewrite <- Z.pow_add_r by lia. f_equal. lia. }
  rewrite Hsplit, Z.div_mul in Hm1 by lia.
  rewrite Hsplit, Z.mod_mul in Hex1 by lia.
  rewrite (loc_of_exact mrs1 (Hex1 eq_refl eq_refl)). cbn [round_nearest_even].
  rewrite Hm1.
  destruct (shr_fexp_spec prec emax (2 ^ (prec - 1)) (1 - prec) loc_Exact)
    as (mrs2 & Hrun2 & _ & _ & Hsame).
  { apply Z.pow_nonneg. lia. }
  cbv zeta in Hrun2, Hsame. rewrite Zdigits2_pow2 in Hrun2, Hsame by lia.
  replace (prec - 1 + 1 + (1 - prec)) with 1 in Hrun2, Hsame by lia.
  rewrite Hf1 in Hrun2, Hsame. rewrite Z.max_id in Hrun2, Hsame.
  rewrite Hrun2, (Hsame eq_refl). cbn [shr_record_of_loc shr_m].
  rewrite <- (one_of_pos prec prec_gt_1).
  replace (1 - prec <=? emax - prec) with true by lia.
  reflexivity.
Qed.

End Division.

(** * The order of cells *)

Section CellOrder.

Ltac cmp_cases :=
  repeat match goal with
    | |- context [Pos.compare_cont Eq ?a ?b] =>
        change (Pos.compare_cont Eq a b) with (Pos.compare a b)
    | H : context [Pos.compare_cont Eq ?a ?b] |- _ =>
        change (Pos.compare_cont Eq a b) with (Pos.compare a b) in H
    end;
  repeat match goal with
    | |- context [Z.compare ?a ?b] => destruct (Z.compare_spec a b)
    | H : context [Z.compare ?a ?b] |- _ => destruct (Z.compare_spec a b)
    | |- context [Pos.compare ?a ?b] => destruct (Pos.compare_spec a b)
    | H : context [Pos.compare ?a ?b] |- _ => destruct (Pos.compare_spec a b)
    end;
  cbn in *; subst; try discriminate; try reflexivity; try lia.

Lemma SFleb_refl (x : spec_float) : Flt.is_nan x = false -> SFleb x x = true.
Proof.
  unfold SFleb, SFcompare.
  destruct x as [[]|[]| |[] m e]; cbn; intros H; try discriminate;
    try reflexivity; cmp_cases.
Qed.

Lemma SFleb_total (a x : spec_float) :
  Flt.is_nan a = false -> Flt.is_nan x = false ->
  SFltb a x = false -> SFleb x a = true.
Proof.
  unfold SFleb, SFltb, SFcompare.
  destruct a as [[]|[]| |[] ma ea], x as [[]|[]| |[] mx ex]; cbn;
    intros Ha Hx H; try discriminate; try reflexivity; cmp_cases.
Qed.

Lemma SFleb_trans (x y z : spec_float) :
  SFleb x y = true -> SFleb y z = true -> SFleb x z = true.
Proof.
  unfold SFleb, SFcompare.
  destruct x as [[]|[]| |[] mx ex], y as [[]|[]| |[] my ey],
    z as [[]|[]| |[] mz ez]; cbn; intros Hxy Hyz;
    try discriminate; try reflexivity; cmp_cases.
Qed.

Lemma SFleb_not_nan (x y : spec_float) :
  SFleb x y = true -> Flt.is_nan x = false /\ Flt.is_nan y = false.
Proof.
  unfold SFleb, SFcompare.
  destruct x as [[]|[]| |[] mx ex], y as [[]|[]| |[] my ey]; cbn;
    intros H; try discriminate; now split.
Qed.

Lemma maximum_cases (a x : spec_float) :
  Flt.is_nan a = false -> Flt.is_nan x = false ->
  (Flt.maximum a x = x /\ SFleb a x = true)
  \/ (Flt.maximum a x = a /\ SFleb x a = true).
Proof.
  intros Ha Hx. pose proof (SFleb_total a x Ha Hx) as Htot.
  unfold Flt.maximum, SFleb, SFltb in *.
  destruct (SFcompare a x) as [[]|] eqn:E.
  - right. split; [reflexivity|]. now apply Htot.
  - left. now split.
  - right. split; [reflexivity|]. now apply Htot.
  - exfalso. destruct a as [[]|[]| |[] ma ea], x as [[]|[]| |[] mx ex];
      cbn in *; discriminate.
Qed.

(** The fold of [maximum] returns its start or a cell of the list, and
    bounds both. *)
Lemma fold_maximum_spec (l : list spec_float) :
  forall a,
    Flt.is_nan a = false ->
    Forall (fun x => Flt.is_nan x = false) l ->
    let r := fold_left Flt.maximum l a in
    (r = a \/ In r l)
    /\ SFleb a r = true
    /\ Forall (fun x => SFleb x r = true) l.
Proof.
  induction l as [|x l IH]; intros a Ha Hl; cbn [fold_left].
  - repeat split; [now left|now apply SFleb_refl|constructor].
  - apply Forall_cons in Hl as [Hx Hl].
    destruct (maximum_cases a x Ha Hx) as [[-> Hax]|[-> Hxa]].
    + destruct (IH x Hx Hl) as (Hin & Hle & Hall). cbv zeta in *.
      repeat split.
      * right. destruct Hin as [->|Hin]; [now left|now right].
      * eapply SFleb_trans; eassumption.
      * now constructor.
    + destruct (IH a Ha Hl) as (Hin & Hle & Hall). cbv zeta in *.
      repeat split.
      * destruct Hin as [->|Hin]; [now left|right; now right].
      * assumption.
      * constructor; [|assumption]. eapply SFleb_trans; eassumption.
Qed.

End CellOrder.

(** * The range of [grad_cam] *)

Section UnitRange.

Variables prec emax : Z.
Hypothesis prec_gt_1 : 1 < prec.
Hypothesis prec_lt_emax : prec < emax.

Lemma iter_xO_pow (d : positive) :
  Z.pos (Pos.iter xO 1%positive d) = 2 ^ Z.pos d.
Proof.
  induction d as [|d IH] using Pos.peano_ind.
  - reflexivity.
  - rewrite Pos.iter_succ, Pos2Z.inj_xO, IH, Pos2Z.inj_succ, Z.pow_succ_r; lia.
Qed.

Lemma SFone_is_one : SFone prec emax = one_of prec.
Proof.
  unfold SFone, binary_round. cbn [digits2_pos].
  assert (fexp prec emax 1 = 1 - prec) as Hf1 by (unfold fexp, emin; lia).
  change (1 + 0) with 1. rewrite Hf1. unfold shl_align.
  destruct (1 - prec - 0) as [|d|d] eqn:Ed; [lia|lia|].
  assert (Z.pos (Pos.iter xO 1%positive d) = 2 ^ (prec - 1)) as Hpow.
  { rewrite iter_xO_pow. f_equal. lia. }
  unfold binary_round_aux. rewrite Hpow.
  destruct (shr_fexp_spec prec emax (2 ^ (prec - 1)) (1 - prec) loc_Exact)
    as (mrs1 & Hrun1 & _ & _ & Hsame1).
  { apply Z.pow_nonneg. lia. }
  cbv zeta in Hrun1, Hsame1. rewrite Zdigits2_pow2 in Hrun1, Hsame1 by lia.
  replace (prec - 1 + 1 + (1 - prec)) with 1 in Hrun1, Hsame1 by lia.
  rewrite Hf1, Z.max_id in Hrun1, Hsame1.
  rewrite Hrun1, (Hsame1 eq_refl).
  cbn [shr_record_of_loc shr_m loc_of_shr_record round_nearest_even].
  rewrite Hrun1, (Hsame1 eq_refl). cbn [shr_record_of_loc shr_m].
  rewrite <- (one_of_pos prec prec_gt_1).
  replace (1 - prec <=? emax - prec) with true by lia.
  reflexivity.
Qed.

(** Between 1.0 and itself there is only 1.0. *)
Lemma SFleb_one_antisym (r : spec_float) :
  SFleb r (one_of prec) = true -> SFleb (one_of prec) r = true ->
  r = one_of prec.
Proof.
  unfold SFleb, SFcompare, one_of.
  destruct r as [[]|[]| |[] m e]; cbn; try discriminate.
  change (Pos.compare_cont Eq m (Z.to_pos (2 ^ (prec - 1))))
    with (Pos.compare m (Z.to_pos (2 ^ (prec - 1)))).
  change (Pos.compare_cont Eq (Z.to_pos (2 ^ (prec - 1))) m)
    with (Pos.compare (Z.to_pos (2 ^ (prec - 1))) m).
  destruct (Z.compare_spec e (1 - prec)), (Z.compare_spec (1 - prec) e);
    try discriminate; try lia.
  destruct (Pos.compare_spec m (Z.to_pos (2 ^ (prec - 1)))),
    (Pos.compare_spec (Z.to_pos (2 ^ (prec - 1))) m);
    try discriminate; try lia.
  intros _ _. now subst.
Qed.

(** One cell of the heatmap: a valid finite cell at most the positive
    maximum [m], clipped at zero and divided by [m]. *)
Lemma cell_in_unit_pos (x : spec_float) (mm : positive) (me : Z) :
  good_cell prec emax x -> good_cell prec emax (S754_finite false mm me) ->
  SFleb x (S754_finite false mm me) = true ->
  Flt.in_unit prec emax
    (SFdiv prec emax (Flt.maximum x Flt.zero) (S754_finite false mm me)) = true.
Proof.
  intros [Hfx Hvx] [_ Hvm] Hle. unfold Flt.in_unit. rewrite SFone_is_one.
  destruct x as [[]|[]| |[] m e]; try discriminate; try reflexivity.
  cbn [valid_binary] in Hvx, Hvm.
  change (Flt.maximum (S754_finite false m e) Flt.zero)
    with (S754_finite false m e).
  destruct (div_le_one prec emax prec_gt_1 prec_lt_emax m mm e me Hvx Hvm Hle)
    as [H0 H1].
  cbv zeta in H0, H1. now rewrite H0, H1.
Qed.

(** The same with a negative maximum: the cell is a zero. *)
Lemma cell_in_unit_neg (x : spec_float) (mm : positive) (me : Z) :
  good_cell prec emax x ->
  SFleb x (S754_finite true mm me) = true ->
  Flt.in_unit prec emax
    (SFdiv prec emax (Flt.maximum x Flt.zero) (S754_finite true mm me)) = true.
Proof.
  intros [Hfx Hvx] Hle. unfold Flt.in_unit. rewrite SFone_is_one.
  destruct x as [[]|[]| |[] m e]; try discriminate; reflexivity.
Qed.

End UnitRange.

Lemma weighted_activation_shape (prec emax : Z) (image : Type)
    (img_array : image) (model : keras_model image) (name : string)
    (pred_index : option nat) (hm : tensor) (f : image -> tensor)
    (b h w c : nat) :
  weighted_activation prec emax img_array model name pred_index = Ok hm ->
  layer_output model name = Some f ->
  t_shape (f img_array) = [b; h; w; c]%nat ->
  t_shape hm = filter (fun d => d <> 1%nat) [h; w; 1%nat].
Proof.
  intros Hmap Hlayer Hshape.
  unfold weighted_activation, make_grad_model in Hmap.
  rewrite Hlayer in Hmap. cbn [rbind] in Hmap.
  destruct (match pred_index with
            | Some i => Ok i
            | None => rbind (preds_row0 (model_output model img_array)) np_argmax
            end) as [i|]; cbn [rbind] in Hmap; [|discriminate].
  destruct (class_channel_ok _ i); cbn [rbind] in Hmap; [|discriminate].
  destruct (reduce_mean_012 _ _ _) as [pooled|]; cbn [rbind] in Hmap;
    [|discriminate].
  unfold first_of_batch in Hmap. rewrite Hshape in Hmap.
  destruct b; cbn [rbind] in Hmap; [discriminate|].
  unfold matmul_vec in Hmap. cbn [t_shape t_data] in Hmap.
  destruct (c =? length pooled)%nat; cbn [rbind] in Hmap; [|discriminate].
  injection Hmap as <-. reflexivity.
Qed.

(** C5, as the code has it: when the map before normalization has valid
    finite cells and its maximum is not zero, [grad_cam] returns a heatmap
    whose every value lies in [0, 1]; its maximum is exactly 1.0 when the
    map has a positive cell; and it is the 2-D array of the layer's spatial
    extents when neither extent is 1 ([tf.squeeze] drops an extent of 1). *)
Theorem grad_cam_unit_range (prec emax : Z) (image : Type) (img_array : image)
    (model : keras_model image) (name : string) (pred_index : option nat)
    (hm : tensor) :
  1 < prec -> prec < emax ->
  weighted_activation prec emax img_array model name pred_index = Ok hm ->
  Forall (good_cell prec emax) (t_data hm) ->
  is_zero (reduce_max hm) = false ->
  exists out,
    grad_cam prec emax img_array model name pred_index = Ok out
    /\ Forall (fun y => Flt.in_unit prec emax y = true) (t_data out)
    /\ (Exists (fun x => SFltb Flt.zero x = true) (t_data hm) ->
        reduce_max out = SFone prec emax)
    /\ (forall f b h w c,
           layer_output model name = Some f ->
           t_shape (f img_array) = [b; h; w; c]%nat ->
           h <> 1%nat -> w <> 1%nat -> t_shape out = [h; w]).
Proof.
  intros Hprec Hemax Hmap Hgood Hzero.
  unfold grad_cam. rewrite Hmap. cbn [rbind]. eexists. split; [reflexivity|].
  cbn [clip_and_divide t_data t_shape].
  assert (Forall (fun x => Flt.is_nan x = false) (t_data hm)) as Hnan.
  { eapply Forall_impl; [exact Hgood|]. intros x [Hf _]. now destruct x. }
  destruct (fold_maximum_spec (t_data hm) (S754_infinity true) eq_refl Hnan)
    as (Hin & _ & Hall).
  fold (reduce_max hm) in Hin, Hall. cbv zeta in Hin, Hall.
  set (m := reduce_max hm) in *.
  assert (Forall (fun y => Flt.in_unit prec emax y = true)
            (map (fun x => SFdiv prec emax (Flt.maximum x Flt.zero) m)
               (t_data hm))) as Hunit.
  { apply Forall_map, Forall_forall. intros x Hx.
    pose proof (proj1 (Forall_forall _ _) Hgood x Hx) as Hgx.
    pose proof (proj1 (Forall_forall _ _) Hall x Hx) as Hle.
    destruct Hin as [Hm|Hm].
    - rewrite Hm in Hle. destruct Hgx as [Hf _].
      now destruct x as [[]|[]| |[] mx ex].
    - apply list_elem_of_In in Hm.
      pose proof (proj1 (Forall_forall _ _) Hgood m Hm) as Hgm.
      destruct m as [sm|sm| |[] mm me] eqn:Em; try (destruct Hgm; discriminate).
      + now apply cell_in_unit_neg.
      + now apply cell_in_unit_pos. }
  split; [exact Hunit|]. split.
  - intros Hex. apply Exists_exists in Hex as (x0 & Hx0 & Hpos).
    pose proof (proj1 (Forall_forall _ _) Hgood x0 Hx0) as Hg0.
    pose proof (proj1 (Forall_forall _ _) Hall x0 Hx0) as Hle0.
    destruct Hin as [Hm|Hm].
    { rewrite Hm in Hle0. destruct Hg0 as [Hf _].
      now destruct x0 as [[]|[]| |[] mx ex]. }
    pose proof Hm as Hm'. apply list_elem_of_In in Hm'.
    pose proof (proj1 (Forall_forall _ _) Hgood m Hm') as [Hfm Hvm].
    assert (exists mm me, m = S754_finite false mm me) as (mm & me & Em).
    { destruct x0 as [[]|[]| |[] mx ex]; try discriminate;
        destruct m as [[]|[]| |[] mm me]; try discriminate; eauto. }
    rewrite Em in *. cbn [valid_binary] in Hvm.
    assert (In (one_of prec)
              (map (fun x => SFdiv prec emax (Flt.maximum x Flt.zero)
                               (S754_finite false mm me)) (t_data hm)))
      as Hone.
    { apply in_map_iff. exists (S754_finite false mm me). split; [|exact Hm].
      change (Flt.maximum (S754_finite false mm me) Flt.zero)
        with (S754_finite false mm me).
      now apply div_self. }
    set (cells := map _ (t_data hm)) in *.
    assert (Forall (fun y => SFleb y (one_of prec) = true) cells) as Hle1.
    { eapply Forall_impl; [exact Hunit|]. intros y Hy. unfold Flt.in_unit in Hy.
      apply andb_prop in Hy as [_ Hy].
      now rewrite (SFone_is_one prec emax Hprec Hemax) in Hy. }
    assert (Forall (fun y => Flt.is_nan y = false) cells) as Hnan'.
    { eapply Forall_impl; [exact Hle1|]. intros y Hy.
      now apply SFleb_not_nan in Hy. }
    destruct (fold_maximum_spec cells (S754_infinity true) eq_refl Hnan')
      as (Hin' & _ & Hall').
    cbv zeta in Hin', Hall'. unfold reduce_max. cbn [t_data].
    set (r := fold_left Flt.maximum cells (S754_infinity true)) in *.
    apply list_elem_of_In in Hone.
    pose proof (proj1 (Forall_forall _ _) Hall' _ Hone) as Hone_r.
    rewrite (SFone_is_one prec emax Hprec Hemax).
    apply SFleb_one_antisym; [|exact Hone_r].
    destruct Hin' as [Hr|Hr]; [rewrite Hr in Hone_r; discriminate|].
    apply list_elem_of_In in Hr.
    exact (proj1 (Forall_forall _ _) Hle1 r Hr).
  - intros f b h w c Hlayer Hshape Hh Hw.
    rewrite (weighted_activation_shape _ _ _ _ _ _ _ _ _ _ _ _ _ Hmap Hlayer Hshape).
    rewrite filter_cons_True, filter_cons_True, filter_cons_False by auto.
    reflexivity.
Qed.

Lemma grad_cam_unit_range_witness :
  exists out,
    grad_cam 24 128 tt Ex.cnn "conv" None = Ok out
    /\ Forall (fun y => Flt.in_unit 24 128 y = true) (t_data out)
    /\ reduce_max out = SFone 24 128
    /\ t_shape out = [2; 2]%nat.
Proof.
  destruct (grad_cam_unit_range 24 128 unit tt Ex.cnn "conv"%string None
              (Tensor [2; 2]%nat
                 [S754_finite false 12582912 (-23);
                  S754_finite false 8388608 (-21);
                  S754_finite true 14680064 (-22); S754_zero false]))
    as (out & Hrun & Hunit & Hmax & Hshape).
  - lia.
  - lia.
  - reflexivity.
  - repeat constructor.
  - reflexivity.
  - exists out. split; [exact Hrun|]. split; [exact Hunit|]. split.
    + apply Hmax. apply Exists_cons_hd. reflexivity.
    + apply (Hshape _ 1%nat 2%nat 2%nat 2%nat eq_refl eq_refl); lia.
Defined.

(** C5, refuted as it stands: on a layer whose activations are all zero
    [grad_cam] returns, and no value of the heatmap lies in [0, 1]. *)
Lemma dark_layer_leaves_unit_range :
  grad_cam 24 128 tt Ex.cnn_dark "conv" (Some 1%nat)
  = Ok (Tensor [2; 2]%nat [S754_nan; S754_nan; S754_nan; S754_nan])
  /\ forallb (Flt.in_unit 24 128) [S754_nan; S754_nan; S754_nan; S754_nan]
     = false
  /\ existsb (Flt.in_unit 24 128) [S754_nan; S754_nan; S754_nan; S754_nan]
     = false.
Proof. repeat split. Qed.

(** * Further properties of the region grid *)

Section GridLayout.

Lemma lookup_flat_map_rows {X Y} (f : X -> list Y) (n : nat) (l : list X) :
  (0 < n)%nat ->
  (forall a, length (f a) = n) ->
  forall k, flat_map f l !! k
            = match l !! (k / n)%nat with
              | Some a => f a !! (k mod n)%nat
              | None => None
              end.
Proof.
  intros Hn Hf. induction l as [|a l IH]; intros k; cbn [flat_map].
  - reflexivity.
  - destruct (Nat.lt_ge_cases k n) as [Hlt|Hge].
    + rewrite lookup_app_l by (rewrite Hf; exact Hlt).
      rewrite Nat.div_small, Nat.mod_small by exact Hlt. reflexivity.
    + rewrite lookup_app_r by (rewrite Hf; exact Hge).
      rewrite Hf, IH.
      assert (k / n = S ((k - n) / n))%nat as ->.
      { replace k with ((k - n) + 1 * n)%nat at 1 by lia.
        rewrite Nat.div_add by lia. lia. }
      assert (k mod n = (k - n) mod n)%nat as ->.
      { replace k with ((k - n) + 1 * n)%nat at 1 by lia.
        apply Nat.Div0.mod_add. }
      reflexivity.
Qed.

Lemma py_range_lookup (extent step : Z) (i : nat) :
  (i < origins extent step)%nat ->
  py_range extent step !! i = Some (Z.of_nat i * step).
Proof.
  intros Hi. unfold py_range, origins in *.
  rewrite list_lookup_fmap, lookup_seq_lt by exact Hi. reflexivity.
Qed.

Lemma py_range_lookup_ge (extent step : Z) (i : nat) :
  (origins extent step <= i)%nat -> py_range extent step !! i = None.
Proof.
  intros Hi. apply lookup_ge_None_2. now rewrite py_range_length.
Qed.

(** The box at position [k] of the closed form of the grid. *)
Lemma grid_lookup (size step height width : Z) (k : nat) :
  let nx := origins width step in
  let ny := origins height step in
  (k < nx * ny)%nat ->
  flat_map (fun oy => map (fun ox => box_at size ox oy) (py_range width step))
    (py_range height step) !! k
  = Some (box_at size (Z.of_nat (k mod nx) * step) (Z.of_nat (k / nx) * step)).
Proof.
  intros nx ny Hk.
  assert (0 < nx)%nat as Hnx by (destruct nx; lia).
  assert (k / nx < ny)%nat as Hrow
      by (apply Nat.Div0.div_lt_upper_bound; lia).
  assert (k mod nx < nx)%nat as Hcol by (apply Nat.mod_upper_bound; lia).
  rewrite (lookup_flat_map_rows _ nx) by
    (try exact Hnx; intros; rewrite length_map; apply py_range_length).
  rewrite (py_range_lookup height step _ Hrow).
  rewrite list_lookup_fmap, (py_range_lookup width step _ Hcol). reflexivity.
Qed.

(** A multiple of the step is an origin when it lies below the extent. *)
Lemma origins_lt (extent step : Z) (i : nat) :
  0 < step -> ((i < origins extent step)%nat <-> Z.of_nat i * step < extent).
Proof.
  intros Hstep. unfold origins. split; intros H.
  - assert (~ ceil_div extent step <= Z.of_nat i) as Hn by lia.
    rewrite ceil_div_spec in Hn by lia. lia.
  - assert (~ ceil_div extent step <= Z.of_nat i) as Hn.
    { rewrite ceil_div_spec by lia. lia. }
    lia.
Qed.

End GridLayout.

Section GridBoxes.

Variables stride size height width channels : Z.
Hypothesis stride_pos : 0 < stride.
Hypothesis size_pos : 0 < size.

Let step := size * stride.
Let nx := origins width step.
Let ny := origins height step.

Lemma step_pos : 0 < step.
Proof. unfold step. lia. Qed.

(** The boxes by position: the list has [nx * ny] boxes, and the one at
    position [k] has the origin [(k mod nx, k / nx)], in steps. *)
Lemma build_grid_lookup (boxes : list (list Z)) :
  build_grid stride size (height, width, channels) = Ok boxes ->
  length boxes = (nx * ny)%nat
  /\ forall k, (k < nx * ny)%nat ->
               boxes !! k
               = Some (box_at size (Z.of_nat (k mod nx) * step)
                         (Z.of_nat (k / nx) * step)).
Proof.
  intros Hrun. rewrite build_grid_closed in Hrun by exact step_pos.
  injection Hrun as <-. split.
  - rewrite (flat_map_length_const _ (length (py_range width step)))
      by (intros; apply length_map).
    rewrite !py_range_length. apply Nat.mul_comm.
  - intros k Hk. now apply grid_lookup.
Qed.

(** Two boxes at different positions share no pixel when the stride is at
    least 1. *)
Lemma build_grid_apart (boxes : list (list Z)) (i j : nat) (bi bj : list Z)
    (px py : Z) :
  build_grid stride size (height, width, channels) = Ok boxes ->
  boxes !! i = Some bi -> boxes !! j = Some bj ->
  in_box bi px py -> in_box bj px py -> i = j.
Proof.
  intros Hrun Hi Hj Hbi Hbj.
  destruct (build_grid_lookup boxes Hrun) as [Hlen Hat].
  pose proof (lookup_lt_Some _ _ _ Hi) as Hli.
  pose proof (lookup_lt_Some _ _ _ Hj) as Hlj.
  rewrite Hlen in Hli, Hlj.
  rewrite (Hat i Hli) in Hi. rewrite (Hat j Hlj) in Hj.
  injection Hi as <-. injection Hj as <-.
  unfold box_at, in_box in Hbi, Hbj.
  assert (size <= step) as Hss by (unfold step; nia).
  assert (0 < nx)%nat as Hnx by (destruct nx; lia).
  assert (i mod nx = j mod nx)%nat as Hmod.
  { destruct (Nat.lt_trichotomy (i mod nx) (j mod nx)) as [H|[H|H]];
      [exfalso|exact H|exfalso]; nia. }
  assert (i / nx = j / nx)%nat as Hdiv.
  { destruct (Nat.lt_trichotomy (i / nx) (j / nx)) as [H|[H|H]];
      [exfalso|exact H|exfalso]; nia. }
  rewrite (Nat.div_mod_eq i nx), (Nat.div_mod_eq j nx). now rewrite Hmod, Hdiv.
Qed.

End GridBoxes.

(** X1: the box at position [k] of the grid: with [nx] origins along the
    width, it is the box whose x-origin is [(k mod nx) * size * stride] and
    whose y-origin is [(k / nx) * size * stride]; the grid has [nx * ny]
    boxes. *)
Theorem build_grid_box_at (stride size height width channels : Z) (k : nat) :
  0 < stride -> 0 < size ->
  (k < origins width (size * stride) * origins height (size * stride))%nat ->
  exists boxes,
    build_grid stride size (height, width, channels) = Ok boxes
    /\ length boxes
       = (origins width (size * stride) * origins height (size * stride))%nat
    /\ boxes !! k
       = Some (let ox := Z.of_nat (k mod origins width (size * stride))
                         * (size * stride) in
               let oy := Z.of_nat (k / origins width (size * stride))
                         * (size * stride) in
               [ox; oy; ox + size; oy + size]).
Proof.
  intros Hstride Hsize Hk.
  assert (0 < size * stride) as Hstep by lia.
  pose proof (build_grid_closed stride size height width channels Hstep) as Hrun.
  destruct (build_grid_lookup stride size height width channels Hstride Hsize
              _ Hrun) as [Hlen Hat].
  eexists. split; [exact Hrun|]. split; [exact Hlen|]. exact (Hat k Hk).
Qed.

Lemma build_grid_box_at_witness :
  exists boxes,
    build_grid 2 16 (224, 224, 3) = Ok boxes
    /\ length boxes = 49%nat
    /\ boxes !! 9%nat = Some [64; 32; 80; 48].
Proof.
  exact (build_grid_box_at 2 16 224 224 3 9 ltac:(lia) ltac:(lia)
           ltac:(vm_compute; lia)).
Defined.

(** X2: every box of the grid has its origin inside the image, at a
    multiple of [size * stride] on both axes, and sides of length [size];
    its far ends are not clamped to the image. *)
Theorem build_grid_origins_inside (stride size height width channels : Z)
    (boxes : list (list Z)) (box : list Z) :
  0 < stride -> 0 < size ->
  build_grid stride size (height, width, channels) = Ok boxes ->
  In box boxes ->
  exists i j : nat,
    box = [Z.of_nat i * (size * stride); Z.of_nat j * (size * stride);
           Z.of_nat i * (size * stride) + size;
           Z.of_nat j * (size * stride) + size]
    /\ 0 <= Z.of_nat i * (size * stride) < width
    /\ 0 <= Z.of_nat j * (size * stride) < height.
Proof.
  intros Hstride Hsize Hrun Hin.
  destruct (build_grid_lookup stride size height width channels Hstride Hsize
              boxes Hrun) as [Hlen Hat].
  apply list_elem_of_In, list_elem_of_lookup in Hin as [k Hk].
  pose proof (lookup_lt_Some _ _ _ Hk) as Hlt. rewrite Hlen in Hlt.
  rewrite (Hat k Hlt) in Hk. injection Hk as <-.
  set (nx := origins width (size * stride)) in *.
  set (ny := origins height (size * stride)) in *.
  assert (0 < nx)%nat as Hnx by (destruct nx; lia).
  assert (k / nx < ny)%nat as Hrow
      by (apply Nat.Div0.div_lt_upper_bound; lia).
  assert (k mod nx < nx)%nat as Hcol by (apply Nat.mod_upper_bound; lia).
  apply origins_lt in Hrow; [|lia]. apply origins_lt in Hcol; [|lia].
  exists (k mod nx)%nat, (k / nx)%nat. split; [reflexivity|]. nia.
Qed.

Lemma build_grid_origins_inside_witness :
  exists i j : nat,
    [192; 192; 208; 208]
    = [Z.of_nat i * (16 * 2); Z.of_nat j * (16 * 2);
       Z.of_nat i * (16 * 2) + 16; Z.of_nat j * (16 * 2) + 16]
    /\ 0 <= Z.of_nat i * (16 * 2) < 224
    /\ 0 <= Z.of_nat j * (16 * 2) < 224.
Proof.
  refine (build_grid_origins_inside 2 16 224 224 3 _ [192; 192; 208; 208]
            ltac:(lia) ltac:(lia) eq_refl _).
  vm_compute. do 48 right. now left.
Defined.

(** X3: with a stride of at least 1 no two boxes of the grid overlap: a
    pixel lies in at most one box. *)
Theorem build_grid_boxes_disjoint (stride size height width channels : Z)
    (boxes : list (list Z)) (i j : nat) (bi bj : list Z) (px py : Z) :
  0 < stride -> 0 < size ->
  build_grid stride size (height, width, channels) = Ok boxes ->
  boxes !! i = Some bi -> boxes !! j = Some bj ->
  in_box bi px py -> in_box bj px py -> i = j.
Proof.
  intros Hstride Hsize. now apply build_grid_apart.
Qed.

Lemma build_grid_boxes_disjoint_witness : 1%nat = 1%nat.
Proof.
  refine (build_grid_boxes_disjoint 1 2 3 5 3 _ 1 1 [2; 0; 4; 2] [2; 0; 4; 2]
            3 1 ltac:(lia) ltac:(lia) eq_refl eq_refl eq_refl _ _);
    cbn; lia.
Defined.

(** With stride 1 the pixel [(px, py)] of the image lies in the box at
    position [(py / size) * nx + px / size], and in no other. *)
Lemma grid_tile (size height width channels : Z) (boxes : list (list Z))
    (px py : Z) :
  0 < size ->
  build_grid 1 size (height, width, channels) = Ok boxes ->
  0 <= px < width -> 0 <= py < height ->
  let k := (Z.to_nat (py / size) * origins width size
            + Z.to_nat (px / size))%nat in
  let box := box_at size (px / size * size) (py / size * size) in
  boxes !! k = Some box
  /\ in_box box px py
  /\ forall k' box', boxes !! k' = Some box' -> in_box box' px py -> k' = k.
Proof.
  intros Hsize Hrun Hpx Hpy.
  destruct (build_grid_lookup 1 size height width channels ltac:(lia) Hsize
              boxes Hrun) as [Hlen Hat].
  rewrite Z.mul_1_r in Hlen, Hat.
  set (nx := origins width size) in *. set (ny := origins height size) in *.
  set (cx := Z.to_nat (px / size)). set (cy := Z.to_nat (py / size)).
  assert (0 <= px / size) by (apply Z.div_pos; lia).
  assert (0 <= py / size) by (apply Z.div_pos; lia).
  assert (size * (px / size) <= px < size * (px / size) + size) as Hqx.
  { pose proof (Z.div_mod px size ltac:(lia)).
    pose proof (Z.mod_pos_bound px size Hsize). lia. }
  assert (size * (py / size) <= py < size * (py / size) + size) as Hqy.
  { pose proof (Z.div_mod py size ltac:(lia)).
    pose proof (Z.mod_pos_bound py size Hsize). lia. }
  assert (cx < nx)%nat as Hcx by (apply origins_lt; [lia|unfold cx; nia]).
  assert (cy < ny)%nat as Hcy by (apply origins_lt; [lia|unfold cy; nia]).
  assert (cy * nx + cx < nx * ny)%nat as Hk by nia.
  assert ((cy * nx + cx) mod nx = cx)%nat as Hmod.
  { rewrite Nat.add_comm, Nat.Div0.mod_add. now apply Nat.mod_small. }
  assert ((cy * nx + cx) / nx = cy)%nat as Hdiv.
  { rewrite Nat.add_comm, Nat.div_add by lia.
    rewrite Nat.div_small by exact Hcx. reflexivity. }
  assert (boxes !! (cy * nx + cx)%nat
          = Some (box_at size (px / size * size) (py / size * size))) as Hbox.
  { rewrite (Hat _ Hk), Hmod, Hdiv. unfold cx, cy.
    now rewrite !Z2Nat.id by assumption. }
  assert (in_box (box_at size (px / size * size) (py / size * size)) px py)
    as Hin by (unfold box_at, in_box; lia).
  cbv zeta. split; [exact Hbox|]. split; [exact Hin|].
  intros k' box' Hk' Hin'.
  exact (build_grid_apart 1 size height width channels ltac:(lia) Hsize
           boxes k' (cy * nx + cx)%nat box' _ px py Hrun Hk' Hbox Hin' Hin).
Qed.

(** X4: with stride 1 the boxes tile the image: every pixel of the image
    lies in exactly one box, the one at position
    [(py / size) * nx + px / size]. *)
Theorem build_grid_tiles (size height width channels : Z)
    (boxes : list (list Z)) (px py : Z) :
  0 < size ->
  build_grid 1 size (height, width, channels) = Ok boxes ->
  0 <= px < width -> 0 <= py < height ->
  exists k box,
    k = (Z.to_nat (py / size) * origins width size + Z.to_nat (px / size))%nat
    /\ boxes !! k = Some box
    /\ in_box box px py
    /\ forall k' box', boxes !! k' = Some box' -> in_box box' px py -> k' = k.
Proof.
  intros Hsize Hrun Hpx Hpy.
  destruct (grid_tile size height width channels boxes px py Hsize Hrun
              Hpx Hpy) as (Hbox & Hin & Huniq).
  eexists _, _. split; [reflexivity|]. split; [exact Hbox|].
  split; [exact Hin|exact Huniq].
Qed.

Lemma build_grid_tiles_witness :
  exists k box,
    k = (Z.to_nat (1 / 2) * origins 5 2 + Z.to_nat (4 / 2))%nat
    /\ [[0; 0; 2; 2]; [2; 0; 4; 2]; [4; 0; 6; 2];
        [0; 2; 2; 4]; [2; 2; 4; 4]; [4; 2; 6; 4]] !! k = Some box
    /\ in_box box 4 1
    /\ forall k' box',
        [[0; 0; 2; 2]; [2; 0; 4; 2]; [4; 0; 6; 2];
         [0; 2; 2; 4]; [2; 2; 4; 4]; [4; 2; 6; 4]] !! k' = Some box' ->
        in_box box' 4 1 -> k' = k.
Proof.
  exact (build_grid_tiles 2 3 5 3 _ 4 1 ltac:(lia) eq_refl ltac:(lia) ltac:(lia)).
Defined.

(** X5: degenerate arguments give an empty grid and no error: a negative
    [size * stride] on an image of non-negative extents, and an extent of 0
    with a positive [size * stride]. *)
Theorem build_grid_degenerate (stride size height width channels : Z) :
  (size * stride < 0 -> 0 <= height -> 0 <= width ->
   build_grid stride size (height, width, channels) = Ok [])
  /\ (0 < size * stride -> height = 0 \/ width = 0 ->
      build_grid stride size (height, width, channels) = Ok []).
Proof.
  split.
  - intros Hstep Hh Hw.
    assert (forall extent, 0 <= extent ->
                           Np.arange 0 extent (size * stride) = Ok [])
      as Harange.
    { intros extent He. unfold Np.arange.
      destruct (size * stride =? 0) eqn:E; [lia|]. f_equal.
      destruct (Z.abs_nat (extent - 0)); cbn [Np.arange_loop]; [reflexivity|].
      destruct (0 <? size * stride) eqn:E1; [lia|].
      now destruct (extent <? 0) eqn:E2; [lia|]. }
    unfold build_grid. rewrite !Harange by assumption. reflexivity.
  - intros Hstep Hzero. rewrite build_grid_closed by exact Hstep. f_equal.
    destruct Hzero as [-> | ->].
    + reflexivity.
    + change (py_range 0 (size * stride)) with (@nil Z).
      induction (py_range height (size * stride)) as [|y l IH];
        [reflexivity|exact IH].
Qed.

Lemma build_grid_degenerate_witness :
  build_grid (-2) 16 (224, 224, 3) = Ok []
  /\ build_grid 2 16 (0, 224, 3) = Ok [].
Proof.
  split.
  - apply (proj1 (build_grid_degenerate (-2) 16 224 224 3)); lia.
  - apply (proj2 (build_grid_degenerate 2 16 0 224 3)); [lia|now left].
Defined.

(** * Further properties of the rasterizer *)

Lemma assign_box_shape (rows cols : nat) (img : list (list Z)) (bb : bbox)
    (v : Z) (n m : nat) :
  length img = n -> Forall (fun row => length row = m) img ->
  length (assign_box rows cols img bb v) = n
  /\ Forall (fun row => length row = m) (assign_box rows cols img bb v).
Proof.
  intros Hn Hm. unfold assign_box. split; [now rewrite length_imap|].
  apply Forall_lookup. intros r row Hrow.
  rewrite list_lookup_imap in Hrow.
  destruct (img !! r) as [row0|] eqn:Hr; [|discriminate].
  injection Hrow as <-. rewrite length_imap.
  exact (proj1 (Forall_lookup _ _) Hm r row0 Hr).
Qed.

(** X6: [print_bboxes] returns an array of the requested shape, whatever
    the boxes: [rows] rows of [cols] cells; boxes that reach outside the
    array, or lie outside it, raise nothing. *)
Theorem print_bboxes_shape (bboxes : list bbox) (rows cols : nat) :
  length (print_bboxes bboxes (rows, cols)) = rows
  /\ Forall (fun row => length row = cols) (print_bboxes bboxes (rows, cols)).
Proof.
  unfold print_bboxes.
  assert (length (Np.zeros2 rows cols) = rows
          /\ Forall (fun row => length row = cols) (Np.zeros2 rows cols))
    as Hzeros.
  { unfold Np.zeros2. split; [apply length_replicate|].
    apply Forall_replicate, length_replicate. }
  revert Hzeros. generalize (Np.zeros2 rows cols) as img. generalize 0 as idx.
  induction bboxes as [|bb rest IH]; intros idx img [Hn Hm];
    cbn [print_bboxes_loop].
  - now split.
  - apply IH. now apply assign_box_shape.
Qed.

(** * Further properties of [grad_cam] *)

(** X7: when every cell of the map before normalization is negative, the
    heatmap that [grad_cam] returns is zero everywhere (negative zeros): the
    clipped cells are divided by the negative maximum of the unclipped map.
    Its maximum is then 0, not 1. *)
Theorem grad_cam_negative_map (prec emax : Z) (image : Type)
    (img_array : image) (model : keras_model image) (name : string)
    (pred_index : option nat) (hm : tensor) :
  weighted_activation prec emax img_array model name pred_index = Ok hm ->
  Forall (fun x => SFltb x Flt.zero = true) (t_data hm) ->
  grad_cam prec emax img_array model name pred_index
  = Ok (Tensor (t_shape hm) (replicate (length (t_data hm)) (S754_zero true))).
Proof.
  intros Hmap Hneg. unfold grad_cam. rewrite Hmap. cbn [rbind].
  unfold clip_and_divide. do 2 f_equal.
  assert (Forall (fun x => Flt.is_nan x = false) (t_data hm)) as Hnan.
  { eapply Forall_impl; [exact Hneg|]. now intros [[]|[]| |[] m e]. }
  destruct (fold_maximum_spec (t_data hm) (S754_infinity true) eq_refl Hnan)
    as (Hin & _ & _).
  fold (reduce_max hm) in Hin. cbv zeta in Hin.
  assert (SFltb (reduce_max hm) Flt.zero = true) as Hmax.
  { destruct Hin as [->|Hin]; [reflexivity|].
    apply list_elem_of_In in Hin.
    exact (proj1 (Forall_forall _ _) Hneg _ Hin). }
  revert Hmax. generalize (reduce_max hm) as m. intros m Hm.
  clear Hnan Hin.
  induction Hneg as [|x l Hx _ IH]; cbn [map length replicate]; [reflexivity|].
  rewrite IH. f_equal.
  destruct x as [[]|[]| |[] mx ex]; try discriminate;
    destruct m as [[]|[]| |[] mm me]; try discriminate; reflexivity.
Qed.

Lemma grad_cam_negative_map_witness :
  grad_cam 24 128 tt cnn_negative "conv" None
  = Ok (Tensor [2]%nat [S754_zero true; S754_zero true]).
Proof.
  refine (grad_cam_negative_map 24 128 unit tt cnn_negative "conv"%string None
            (Tensor [2]%nat [Ex.f32 (-1); Ex.f32 (-3)]) eq_refl _).
  repeat constructor.
Defined.

(** X8: the heatmap has one cell per spatial position of the layer's
    output: for a layer output of shape [b, h, w, c] a returned heatmap holds
    [h * w] cells, and its shape is [h, w] without the extents equal to 1. *)
Theorem grad_cam_resolution (prec emax : Z) (image : Type)
    (img_array : image) (model : keras_model image) (name : string)
    (pred_index : option nat) (out : tensor) (f : image -> tensor)
    (b h w c : nat) :
  layer_output model name = Some f ->
  t_shape (f img_array) = [b; h; w; c]%nat ->
  grad_cam prec emax img_array model name pred_index = Ok out ->
  t_shape out = filter (fun d => d <> 1%nat) [h; w]
  /\ length (t_data out) = (h * w)%nat.
Proof.
  intros Hlayer Hshape Hrun. unfold grad_cam in Hrun.
  destruct (weighted_activation prec emax img_array model name pred_index)
    as [hm|e] eqn:Hmap; cbn [rbind] in Hrun; [|discriminate].
  injection Hrun as <-. cbn [clip_and_divide t_shape t_data].
  rewrite length_map. split.
  - rewrite (weighted_activation_shape _ _ _ _ _ _ _ _ _ _ _ _ _
               Hmap Hlayer Hshape).
    destruct (decide (h = 1%nat)) as [->|Hh], (decide (w = 1%nat)) as [->|Hw];
      repeat first [rewrite filter_cons_True by auto
                   |rewrite filter_cons_False by auto]; reflexivity.
  - unfold weighted_activation, make_grad_model in Hmap.
    rewrite Hlayer in Hmap. cbn [rbind] in Hmap.
    destruct (match pred_index with
              | Some i => Ok i
              | None => rbind (preds_row0 (model_output model img_array)) np_argmax
              end) as [i|]; cbn [rbind] in Hmap; [|discriminate].
    destruct (class_channel_ok _ i); cbn [rbind] in Hmap; [|discriminate].
    destruct (reduce_mean_012 _ _ _) as [pooled|]; cbn [rbind] in Hmap;
      [|discriminate].
    unfold first_of_batch in Hmap. rewrite Hshape in Hmap.
    destruct b; cbn [rbind] in Hmap; [discriminate|].
    unfold matmul_vec in Hmap. cbn [t_shape t_data] in Hmap.
    destruct (c =? length pooled)%nat; cbn [rbind] in Hmap; [|discriminate].
    injection Hmap as <-. cbn [squeeze t_data].
    now rewrite length_map, length_reshape, length_replicate.
Qed.

Lemma grad_cam_resolution_witness :
  t_shape (Tensor [2; 2]%nat
             [S754_finite false 12582912 (-25); S754_finite false 8388608 (-23);
              S754_zero false; S754_zero false])
  = filter (fun d => d <> 1%nat) [2; 2]%nat
  /\ length (t_data (Tensor [2; 2]%nat
                       [S754_finite false 12582912 (-25);
                        S754_finite false 8388608 (-23);
                        S754_zero false; S754_zero false]))
     = (2 * 2)%nat.
Proof.
  exact (grad_cam_resolution 24 128 unit tt Ex.cnn "conv"%string None _ _
           1%nat 2%nat 2%nat 2%nat eq_refl eq_refl eq_refl).
Defined.

(** * Further properties of [occlusion_test] *)

Lemma insert_sorted_In (x y : Z) (l : list Z) :
  In y (insert_sorted x l) <-> y = x \/ In y l.
Proof.
  induction l as [|z l IH]; cbn [insert_sorted].
  - cbn. intuition.
  - destruct (x <? z) eqn:E1; [cbn; intuition|].
    destruct (x =? z) eqn:E2.
    + apply Z.eqb_eq in E2. subst z. cbn. intuition.
    + cbn [In]. rewrite IH. intuition.
Qed.

Lemma insert_sorted_sorted (x : Z) (l : list Z) :
  StronglySorted Z.lt l -> StronglySorted Z.lt (insert_sorted x l).
Proof.
  induction 1 as [|z l Hs IH Hall]; cbn [insert_sorted].
  - repeat constructor.
  - destruct (x <? z) eqn:E1.
    + constructor; [now constructor|].
      constructor; [lia|]. eapply Forall_impl; [exact Hall|]. cbn. lia.
    + destruct (x =? z) eqn:E2; [now constructor|].
      constructor; [exact IH|].
      apply Forall_forall. intros y Hy.
      apply list_elem_of_In, insert_sorted_In in Hy as [->|Hy]; [lia|].
      apply list_elem_of_In in Hy.
      exact (proj1 (Forall_forall _ _) Hall y Hy).
Qed.

Lemma fold_insert_spec (l : list Z) :
  forall acc,
    StronglySorted Z.lt acc ->
    StronglySorted Z.lt (fold_left (fun acc x => insert_sorted x acc) l acc)
    /\ forall y, In y (fold_left (fun acc x => insert_sorted x acc) l acc)
                 <-> In y l \/ In y acc.
Proof.
  induction l as [|x l IH]; intros acc Hacc; cbn [fold_left].
  - split; [exact Hacc|]. cbn. intuition.
  - destruct (IH (insert_sorted x acc) (insert_sorted_sorted x acc Hacc))
      as [Hs Hin].
    split; [exact Hs|]. intros y. rewrite Hin, insert_sorted_In. cbn. intuition.
Qed.

(** X9: the loop of [occlusion_test] visits every identifier that occurs in
    the partition exactly once, in ascending order: the sequence it iterates
    over is strictly increasing and has the identifiers of the partition as
    its members. *)
Theorem np_unique_visits_each_once (z : zones) :
  StronglySorted Z.lt (np_unique z)
  /\ forall u, In u (np_unique z) <-> In u (z_data z).
Proof.
  destruct (fold_insert_spec (z_data z) [] (SSorted_nil _)) as [Hs Hin].
  split; [exact Hs|]. intros u. unfold np_unique. rewrite Hin. cbn. intuition.
Qed.

(** X10: an image that does not have 224 * 224 * 3 cells is refused: the
    call raises ValueError, before any inference, and leaves the store as it
    was. *)
Theorem occlusion_test_bad_size (batch_img : ndarray) (model : predictor)
    (z : zones) (st : store) :
  size_of (nd_shape batch_img) <> 150528 ->
  occlusion_test batch_img model z st = (Raise ValueError, st).
Proof.
  intros Hsize. unfold occlusion_test, occlusion_heatmap.
  do 2 (erewrite bind_raise; [reflexivity|]).
  unfold np_reshape.
  destruct (size_of (nd_shape batch_img) =? size_of [1; 224; 224; 3]) eqn:E;
    [|reflexivity].
  apply Z.eqb_eq in E. change (size_of [1; 224; 224; 3]) with 150528 in E.
  contradiction.
Qed.

Lemma occlusion_test_bad_size_witness :
  occlusion_test (NdArray 0 [100; 100; 3]) Ex.toy Ex.zones_row_of_zeros
    [replicate (Z.to_nat 30000) F64.one]
  = (Raise ValueError, [replicate (Z.to_nat 30000) F64.one]).
Proof.
  apply occlusion_test_bad_size. cbn. lia.
Defined.

Section PartialRuns.

Context {A B : Type}.

Lemma partial_bind (P : store -> Prop) (m : M A) (k : A -> M B)
    (R : A -> store -> Prop) (Q : B -> store -> Prop) :
  triple P m (partial R) ->
  (forall a, triple (R a) (k a) (partial Q)) ->
  triple P (bind m k) (partial Q).
Proof.
  intros Hm Hk st HP. specialize (Hm st HP). unfold bind.
  destruct (m st) as [[a|e] st']; cbn in Hm; [|exact Logic.I].
  exact (Hk a st' Hm).
Qed.

Lemma partial_bind_pure (P R : store -> Prop) (m : M A) (k : A -> M B)
    (phi : A -> Prop) (Q : B -> store -> Prop) :
  triple P m (partial (fun a st => phi a /\ R st)) ->
  (forall a, phi a -> triple R (k a) (partial Q)) ->
  triple P (bind m k) (partial Q).
Proof.
  intros Hm Hk. eapply partial_bind; [exact Hm|].
  intros a st [Hphi HR]. exact (Hk a Hphi st HR).
Qed.

End PartialRuns.

Lemma lookup_imapZ {X Y} (f : Z -> X -> Y) (l : list X) :
  forall (i : Z) (k : nat),
    imapZ f i l !! k = f (i + Z.of_nat k) <$> l !! k.
Proof.
  induction l as [|x l IH]; intros i k; cbn [imapZ]; [reflexivity|].
  destruct k as [|k]; cbn [lookup list_lookup].
  - cbn. now rewrite Z.add_0_r.
  - change (imapZ f (i + 1) l !! k = f (i + Z.of_nat (S k)) <$> l !! k).
    rewrite IH. do 2 f_equal. lia.
Qed.

Section Tracked.

Variables (h n : nat) (P : Z -> spec_float -> Prop).

Lemma tracked_lt (len : nat) (st : store) : tracked h n len P st -> (h < len)%nat.
Proof.
  intros [Hlen (b & Hb & _)]. rewrite <- Hlen. eapply lookup_lt_Some, Hb.
Qed.

Lemma tracked_alloc (len : nat) (st : store) (b : buffer) :
  tracked h n len P st -> tracked h n (S len) P (st ++ [b]).
Proof.
  intros [Hlen (b' & Hb' & Hn & Hok)]. split.
  - rewrite length_app, Hlen. cbn. lia.
  - exists b'. split; [now apply lookup_app_l_Some|now split].
Qed.

Lemma tracked_save_other (len a : nat) (st : store) (b : buffer) :
  a <> h -> tracked h n len P st -> tracked h n len P (<[a := b]> st).
Proof.
  intros Ha [Hlen (b' & Hb' & Hn & Hok)]. split.
  - now rewrite length_insert.
  - exists b'. split; [now rewrite list_lookup_insert_ne|now split].
Qed.

Lemma tracked_save_self (len : nat) (st : store) (b : buffer) :
  length b = n -> cells_ok P b ->
  tracked h n len P st -> tracked h n len P (<[h := b]> st).
Proof.
  intros Hb Hokb Ht. pose proof (tracked_lt _ _ Ht) as Hlt.
  destruct Ht as [Hlen _]. split.
  - now rewrite length_insert.
  - exists b. split; [|now split].
    apply list_lookup_insert_eq. now rewrite Hlen.
Qed.

Lemma tracked_np_copy (len : nat) (a : ndarray) :
  triple (tracked h n len P) (np_copy a)
    (partial (fun a' st => (nd_buf a' = len /\ nd_shape a' = nd_shape a)
                           /\ tracked h n (S len) P st)).
Proof.
  intros st Ht. rewrite np_copy_run. cbn [fst snd partial nd_buf nd_shape].
  split; [split; [apply Ht|reflexivity]|]. now apply tracked_alloc.
Qed.

(** A masked assignment to another array than the tracked one. *)
Lemma tracked_setitem_other (len : nat) (a : ndarray) (j : Z) (m : mask)
    (v : spec_float) :
  nd_buf a <> h ->
  triple (tracked h n len P) (setitem_axis2_mask a j m v)
    (partial (fun _ st => True /\ tracked h n len P st)).
Proof.
  intros Ha st Ht. unfold setitem_axis2_mask.
  destruct (nd_shape a !! 2%nat); [|exact Logic.I].
  destruct (negb _); [exact Logic.I|].
  destruct (negb _); [exact Logic.I|].
  unfold bind, load, save. cbn [fst snd partial].
  split; [exact Logic.I|]. now apply tracked_save_other.
Qed.

(** A masked assignment to the tracked array: the cells it writes, those
    of index [j] on the third axis, must satisfy [P] with the new value. *)
Lemma tracked_setitem_self (len : nat) (a : ndarray) (j : Z) (m : mask)
    (v : spec_float) :
  nd_buf a = h ->
  (forall p, unravel (nd_shape a) p !! 2%nat = Some j -> P p v) ->
  triple (tracked h n len P) (setitem_axis2_mask a j m v)
    (partial (fun _ st => True /\ tracked h n len P st)).
Proof.
  intros Ha Hv st Ht. unfold setitem_axis2_mask.
  destruct (nd_shape a !! 2%nat); [|exact Logic.I].
  destruct (negb _); [exact Logic.I|].
  destruct (negb _); [exact Logic.I|].
  unfold bind, load, save. cbn [fst snd partial].
  split; [exact Logic.I|]. rewrite Ha.
  pose proof Ht as [_ (b & Hb & Hn & Hok)]. rewrite Hb.
  cbn [default from_option id].
  apply tracked_save_self; [now rewrite length_imapZ| |exact Ht].
  intros p x Hp. rewrite lookup_imapZ in Hp.
  destruct (b !! p) as [x0|] eqn:Hx0; [|discriminate].
  cbn in Hp. injection Hp as <-. rewrite Z.add_0_l.
  destruct (bool_decide_reflect
              (unravel (nd_shape a) (Z.of_nat p) !! 2%nat = Some j)) as [Hj|Hj];
    cbn [andb].
  - destruct (mask_at m _); [now apply Hv|now apply Hok].
  - now apply Hok.
Qed.

End Tracked.

(** * What [occlusion_test] returns, whenever it returns *)

Section TrackedRuns.

Variables (model : predictor) (z : zones).
Variables (h n : nat) (P : Z -> spec_float -> Prop).

Lemma tracked_lift {A} (len : nat) (r : result A) :
  triple (tracked h n len P) (lift r)
    (partial (fun a st => r = Ok a /\ tracked h n len P st)).
Proof. intros st Ht. unfold lift. cbn [fst snd]. now destruct r. Qed.

Lemma tracked_model_predict (len : nat) (a : ndarray) :
  triple (tracked h n len P) (model_predict model a)
    (partial (fun v st => (exists b, v = model b) /\ tracked h n len P st)).
Proof.
  intros st Ht. rewrite model_predict_run. cbn [fst snd partial].
  split; [now eexists|exact Ht].
Qed.

(** One turn of the loop allocates one buffer, the occluded copy, and
    writes the relative drop to the cells of the heatmap whose index on the
    third axis is 0, 1 or 2, and to no other cell. *)
Lemma tracked_body (len : nat) (batch_img heatmap : ndarray)
    (original_prop : list spec_float) (index_object : nat) (u_val : Z) :
  nd_buf heatmap = h ->
  (forall b p0 p1 p j,
      getitem original_prop index_object = Ok p0 ->
      getitem (model b) index_object = Ok p1 ->
      0 <= j < 3 ->
      unravel (nd_shape heatmap) p !! 2%nat = Some j ->
      P p (F64.div (F64.sub p0 p1) p0)) ->
  triple (tracked h n len P)
    (occlusion_body model z batch_img heatmap original_prop index_object u_val)
    (partial (fun _ st => True /\ tracked h n (S len) P st)).
Proof.
  intros Hh Hw st Ht. pose proof (tracked_lt _ _ _ _ _ Ht) as Hlt.
  revert st Ht. unfold occlusion_body.
  eapply partial_bind_pure
    with (phi := fun a => nd_buf a = len /\ nd_shape a = nd_shape batch_img)
         (R := tracked h n (S len) P); [apply tracked_np_copy|].
  intros img [Himg _]. cbv beta in Himg.
  do 3 (eapply partial_bind_pure
          with (phi := fun _ => True) (R := tracked h n (S len) P);
        [apply tracked_setitem_other; lia|intros _ _]).
  eapply partial_bind_pure
    with (phi := fun v => exists b, v = model b) (R := tracked h n (S len) P);
    [apply tracked_model_predict|].
  intros probs [b ->].
  eapply partial_bind_pure
    with (phi := fun a => getitem original_prop index_object = Ok a)
         (R := tracked h n (S len) P); [apply tracked_lift|].
  intros p0 Hp0. cbv beta in Hp0.
  eapply partial_bind_pure
    with (phi := fun a => getitem (model b) index_object = Ok a)
         (R := tracked h n (S len) P); [apply tracked_lift|].
  intros p1 Hp1. cbv beta in Hp1.
  do 2 (eapply partial_bind_pure
          with (phi := fun _ => True) (R := tracked h n (S len) P);
        [apply tracked_setitem_self;
         [exact Hh|intros p; apply (Hw b p0 p1); [assumption..|lia]]
        |intros _ _]).
  apply tracked_setitem_self;
    [exact Hh|intros p; apply (Hw b p0 p1); [assumption..|lia]].
Qed.

Lemma tracked_for_each {X} (xs : list X) (body : X -> M unit) :
  (forall len x,
      triple (tracked h n len P) (body x)
        (partial (fun _ st => True /\ tracked h n (S len) P st))) ->
  forall len,
    triple (tracked h n len P) (for_each xs body)
      (partial (fun _ st => True /\ tracked h n (length xs + len) P st)).
Proof.
  intros Hb. induction xs as [|x xs IH]; intros len; cbn [for_each length].
  - intros st Ht. cbn. now split.
  - eapply partial_bind_pure
      with (phi := fun _ => True) (R := tracked h n (S len) P); [apply Hb|].
    intros _ _. replace (S (length xs) + len)%nat with (length xs + S len)%nat
      by lia.
    apply IH.
Qed.

End TrackedRuns.

Section WhenItReturns.

Variables (model : predictor) (z : zones) (P : Z -> spec_float -> Prop).

(** What the cells of the heatmap start with, and what the loop writes. *)
Hypothesis P_zero : forall p, P p Flt.zero.
Hypothesis P_drop :
  forall b0 b1 i p0 p1 p j,
    np_argmax (model b0) = Ok i ->
    getitem (model b0) i = Ok p0 ->
    getitem (model b1) i = Ok p1 ->
    0 <= j < 3 ->
    heatmap_column p = Some j ->
    P p (F64.div (F64.sub p0 p1) p0).

Lemma tracked_heatmap (batch_img : ndarray) (L0 : nat) :
  triple (fun st => length st = L0) (occlusion_heatmap batch_img model z)
    (partial (fun hm st =>
                (nd_shape hm = [1; 224; 224] /\ nd_buf hm = S L0)
                /\ tracked (S L0) (Z.to_nat 50176)
                     (length (np_unique z) + (L0 + 2)) P st)).
Proof.
  unfold occlusion_heatmap.
  eapply partial_bind_pure
    with (phi := fun a => nd_shape a = [1; 224; 224; 3])
         (R := fun st => length st = L0).
  { intros st Hlen. unfold np_reshape.
    destruct (_ =? _); cbn; [now split|exact Logic.I]. }
  intros view Hview. cbv beta in Hview.
  eapply partial_bind_pure
    with (phi := fun a => nd_shape a = [1; 224; 224; 3])
         (R := fun st => length st = S L0).
  { intros st Hlen. rewrite np_copy_run. cbn [fst snd partial nd_shape].
    split; [exact Hview|]. rewrite length_app, Hlen. cbn. lia. }
  intros batch Hbatch. cbv beta in Hbatch.
  eapply partial_bind_pure
    with (phi := fun v => exists b, v = model b)
         (R := fun st => length st = S L0).
  { intros st Hlen. rewrite model_predict_run. cbn [fst snd partial].
    split; [now eexists|exact Hlen]. }
  intros probs [b0 ->].
  eapply partial_bind_pure
    with (phi := fun i => np_argmax (model b0) = Ok i)
         (R := fun st => length st = S L0).
  { intros st Hlen. unfold lift. cbn [fst snd].
    now destruct (np_argmax (model b0)). }
  intros i Hi. cbv beta in Hi.
  rewrite Hbatch. change (take 3 [1; 224; 224; 3]) with [1; 224; 224].
  eapply partial_bind_pure
    with (phi := fun hm => nd_shape hm = [1; 224; 224] /\ nd_buf hm = S L0)
         (R := tracked (S L0) (Z.to_nat 50176) (L0 + 2) P).
  { intros st Hlen. rewrite np_zeros_run.
    cbn [fst snd partial nd_shape nd_buf].
    split; [now split|]. split; [rewrite length_app, Hlen; cbn; lia|].
    eexists. split; [rewrite <- Hlen; apply lookup_fresh|].
    split; [now rewrite length_replicate|].
    intros p x Hp. apply lookup_replicate in Hp as [-> _]. apply P_zero. }
  intros hm [Hshape Hbuf]. cbv beta in Hshape, Hbuf.
  eapply partial_bind_pure
    with (phi := fun _ => True)
         (R := tracked (S L0) (Z.to_nat 50176)
                 (length (np_unique z) + (L0 + 2)) P).
  { apply tracked_for_each. intros len u. apply tracked_body; [exact Hbuf|].
    intros b1 p0 p1 p j Hp0 Hp1 Hj Hcol. rewrite Hshape in Hcol.
    exact (P_drop b0 b1 i p0 p1 p j Hi Hp0 Hp1 Hj Hcol). }
  intros _ _ st Ht. cbn. now split.
Qed.

(** A returned array is the cast of the scaled cells of the heatmap, which
    satisfy [P]; the run has allocated the copy of the image, the heatmap
    and one occluded copy for each identifier. *)
Lemma occlusion_test_inv (batch_img : ndarray) (st st' : store)
    (out : u8array) :
  occlusion_test batch_img model z st = (Ok out, st') ->
  exists x b,
    length (x :: b) = Z.to_nat 50176
    /\ cells_ok P (x :: b)
    /\ u8_shape out = [1; 224; 224]
    /\ u8_data out = map (scaled_byte (fold_left Flt.maximum b x)) (x :: b)
    /\ length st' = (length st + 2 + length (np_unique z))%nat.
Proof.
  intros Hrun. pose proof (tracked_heatmap batch_img (length st) st eq_refl)
    as Hhm.
  unfold occlusion_test, bind in Hrun.
  destruct (occlusion_heatmap batch_img model z st) as [[hm|e] st1];
    [|discriminate].
  cbn [fst snd partial] in Hhm.
  destruct Hhm as [[Hshape Hbuf] [Hlen (cells & Hcells & Hn & Hok)]].
  destruct cells as [|x b]; [cbn in Hn; lia|].
  rewrite <- Hbuf in Hcells. rewrite (normalize_run hm st1 x b Hcells) in Hrun.
  cbv zeta in Hrun. injection Hrun as <- <-.
  exists x, b. cbn [u8_shape u8_data].
  split; [exact Hn|]. split; [exact Hok|]. split; [exact Hshape|].
  split; [now rewrite !map_map|]. rewrite length_insert. lia.
Qed.

End WhenItReturns.

(** * Properties of every returned heatmap *)

(** The run of the example that the statements below are instantiated at. *)
Lemma toy_run :
  exists out st',
    occlusion_test Ex.batch Ex.toy Ex.zones_row_of_zeros Ex.st0 = (Ok out, st')
    /\ length (u8_data out) = Z.to_nat 50176.
Proof.
  destruct (occlusion_returns Ex.batch Ex.toy 2 Ex.zones_row_of_zeros Ex.st0
              eq_refl ltac:(lia) toy_two_classes eq_refl)
    as (out & st' & Hrun & _ & Hlen).
  exists out, st'. split; [exact Hrun|exact Hlen].
Qed.

(** X11: whenever [occlusion_test] returns, whatever the image, the model
    and the partition are, the array it returns has shape (1, 224, 224) and
    224 * 224 bytes: the batch axis is kept, the channels are not. *)
Theorem occlusion_test_result_shape (batch_img : ndarray) (model : predictor)
    (z : zones) (st st' : store) (out : u8array) :
  occlusion_test batch_img model z st = (Ok out, st') ->
  u8_shape out = [1; 224; 224] /\ length (u8_data out) = Z.to_nat (224 * 224).
Proof.
  intros Hrun.
  destruct (occlusion_test_inv model z (fun _ _ => True)
              (fun _ => Logic.I) (fun _ _ _ _ _ _ _ _ _ _ _ _ => Logic.I)
              batch_img st st' out Hrun)
    as (x & b & Hn & _ & Hshape & Hdata & _).
  split; [exact Hshape|]. rewrite Hdata, length_map. exact Hn.
Qed.

Lemma occlusion_test_result_shape_witness :
  exists out st',
    occlusion_test Ex.batch Ex.toy Ex.zones_row_of_zeros Ex.st0 = (Ok out, st')
    /\ u8_shape out = [1; 224; 224]
    /\ length (u8_data out) = Z.to_nat (224 * 224).
Proof.
  destruct toy_run as (out & st' & Hrun & _). exists out, st'.
  split; [exact Hrun|].
  exact (occlusion_test_result_shape Ex.batch Ex.toy Ex.zones_row_of_zeros
           Ex.st0 st' out Hrun).
Defined.



(** The column of a cell of the heatmap. *)
Lemma heatmap_column_spec (r c : Z) :
  0 <= c < 224 -> heatmap_column (224 * r + c) = Some c.
Proof.
  intros Hc. unfold heatmap_column. cbn [unravel lookup list_lookup].
  change (size_of [224; 224]) with 50176. change (size_of [224]) with 224.
  change (size_of []) with 1. f_equal.
  Z.to_euclidean_division_equations; lia.
Qed.

(** What the normalization makes of a cell that is still zero. *)
Lemma scaled_byte_zero (m : spec_float) :
  scaled_byte m Flt.zero = U8 0 \/ scaled_byte m Flt.zero = U8_unspecified.
Proof.
  destruct m as [s|s| |s mm e]; [right|left|right|left];
    try reflexivity; now destruct s.
Qed.



(** * A model that the occlusions do not move *)

Lemma sub_self_zero (x : spec_float) :
  is_finite_nonzero x = true -> F64.sub x x = S754_zero false.
Proof.
  destruct x as [s|s| |s m e]; try discriminate. intros _.
  unfold F64.sub, SFsub. now rewrite Z.min_id, Z.sub_diag.
Qed.

Lemma drop_self_zero (x : spec_float) :
  is_finite_nonzero x = true -> is_zero (F64.div (F64.sub x x) x) = true.
Proof.
  intros Hx. rewrite (sub_self_zero x Hx).
  now destruct x as [s|s| |s m e].
Qed.

Lemma maximum_is_zero (x y : spec_float) :
  is_zero x = true -> is_zero y = true -> is_zero (Flt.maximum x y) = true.
Proof. now destruct x as [[]|[]| |[] mx ex], y as [[]|[]| |[] my ey]. Qed.

Lemma fold_maximum_is_zero (l : list spec_float) :
  forall a, is_zero a = true -> Forall (fun x => is_zero x = true) l ->
            is_zero (fold_left Flt.maximum l a) = true.
Proof.
  induction l as [|x l IH]; intros a Ha Hl; cbn [fold_left]; [exact Ha|].
  apply Forall_cons in Hl as [Hx Hl]. apply IH; [|exact Hl].
  now apply maximum_is_zero.
Qed.

Lemma scaled_byte_zero_max (m c : spec_float) :
  is_zero m = true -> is_zero c = true -> scaled_byte m c = U8_unspecified.
Proof. now destruct m as [[]|[]| |[] mm em], c as [[]|[]| |[] mc ec]. Qed.



(** * The partitions that [occlusion_test] accepts *)

Lemma setitem_fit (a : ndarray) (j ext : Z) (m : mask) (v : spec_float)
    (st : store) :
  nd_shape a !! 2%nat = Some ext ->
  0 <= j < ext ->
  mask_fits (m_shape m) (delete 2%nat (nd_shape a)) = true ->
  exists st', setitem_axis2_mask a j m v st = (Ok tt, st').
Proof.
  intros Hext Hj Hfit. unfold setitem_axis2_mask. rewrite Hext, Hfit.
  replace ((0 <=? j) && (j <? ext)) with true by lia.
  cbn [negb]. unfold bind, load, save. now eexists.
Qed.

(** A boolean index of the shape of the view [img_ocluded[:, :, 0]],
    (1, 224, 3), passes lines 102 to 104 and fails at line 110, on the view
    [heatmap[:, :, 0]], whose shape is (1, 224). *)
Lemma body_index_error_late (model : predictor) (z : zones)
    (batch_img heatmap : ndarray) (original_prop : list spec_float)
    (index_object : nat) (p0 : spec_float) (u_val : Z) (st : store) :
  nd_shape batch_img = [1; 224; 224; 3] ->
  nd_shape heatmap = [1; 224; 224] ->
  original_prop !! index_object = Some p0 ->
  mask_fits (z_shape z) [1; 224; 3] = true ->
  mask_fits (z_shape z) [1; 224] = false ->
  exists st',
    occlusion_body model z batch_img heatmap original_prop index_object u_val st
    = (Raise IndexError, st').
Proof.
  intros Hbatch Hheat Hp0 Hfit3 Hfit2. unfold occlusion_body.
  erewrite bind_ok by apply np_copy_run. rewrite Hbatch.
  set (img := NdArray (length st) [1; 224; 224; 3]).
  set (s0 := st ++ _).
  destruct (setitem_fit img 0 224 (zones_eq z u_val) Flt.zero s0
              eq_refl ltac:(lia) Hfit3) as [s1 H1].
  erewrite bind_ok by exact H1.
  destruct (setitem_fit img 1 224 (zones_eq z u_val) Flt.zero s1
              eq_refl ltac:(lia) Hfit3) as [s2 H2].
  erewrite bind_ok by exact H2.
  destruct (setitem_fit img 2 224 (zones_eq z u_val) Flt.zero s2
              eq_refl ltac:(lia) Hfit3) as [s3 H3].
  erewrite bind_ok by exact H3.
  erewrite bind_ok by apply model_predict_run.
  erewrite bind_ok by (unfold lift, getitem; rewrite Hp0; reflexivity).
  match goal with |- context [lift (getitem ?v index_object)] =>
    destruct (getitem v index_object) as [p1|e] eqn:Hp1
  end.
  - erewrite bind_ok by reflexivity.
    exists s3. erewrite bind_raise; [reflexivity|].
    apply (setitem_misfit _ _ 224);
      [now rewrite Hheat|lia|now rewrite Hheat].
  - exists s3. erewrite bind_raise; [reflexivity|].
    unfold getitem in Hp1.
    destruct (model _ !! index_object); [discriminate|].
    now injection Hp1 as <-.
Qed.

Lemma bind_raise_fst {A B} (m : M A) (k : A -> M B) (st : store) (e : exn) :
  fst (m st) = Raise e -> fst (bind m k st) = Raise e.
Proof.
  unfold bind. destruct (m st) as [[a|e'] st']; cbn [fst]; intros H;
    [discriminate|now injection H as ->].
Qed.

Lemma occlusion_index_error_late (batch_img : ndarray) (model : predictor)
    (z : zones) (st : store) :
  size_of (nd_shape batch_img) = 150528 ->
  model (default [] (st !! nd_buf batch_img)) <> [] ->
  z_data z <> [] ->
  mask_fits (z_shape z) [1; 224; 3] = true ->
  mask_fits (z_shape z) [1; 224] = false ->
  fst (occlusion_test batch_img model z st) = Raise IndexError.
Proof.
  intros Hsize Hmodel Hz Hfit3 Hfit2.
  destruct (np_argmax_lt _ Hmodel) as (i & Hi & Hlt).
  destruct (lookup_lt_is_Some_2 _ _ Hlt) as [p0 Hp0].
  destruct (np_unique z) as [|u us] eqn:Hu;
    [now apply np_unique_not_nil in Hu|].
  unfold occlusion_test. apply bind_raise_fst.
  unfold occlusion_heatmap.
  erewrite bind_ok by (apply np_reshape_run; rewrite Hsize; reflexivity).
  erewrite bind_ok by apply np_copy_run.
  erewrite bind_ok by apply model_predict_run.
  cbn [nd_buf nd_shape]. rewrite lookup_fresh. cbn [default from_option id].
  erewrite bind_ok by (unfold lift; rewrite Hi; reflexivity).
  erewrite bind_ok by apply np_zeros_run.
  apply bind_raise_fst. rewrite Hu. cbn [for_each]. apply bind_raise_fst.
  match goal with |- fst (occlusion_body _ _ ?b ?h _ _ _ ?s) = _ =>
    destruct (body_index_error_late model z b h _ i p0 u s eq_refl eq_refl
                Hp0 Hfit3 Hfit2) as [s' Hbody]
  end.
  now rewrite Hbody.
Qed.

(** X15: the partitions that [occlusion_test] accepts.  On an image of
    224 * 224 * 3 cells, with a model of at least one class and a partition
    of at least one cell, the call returns when the shape of the partition
    is (), (1,) or (1, 224), and raises IndexError for every other shape;
    (224, 224), the shape of the image, is among the latter. *)
Theorem occlusion_test_accepted_shapes (batch_img : ndarray)
    (model : predictor) (classes : nat) (z : zones) (st : store) :
  size_of (nd_shape batch_img) = 150528 ->
  (0 < classes)%nat ->
  (forall b, length (model b) = classes) ->
  z_data z <> [] ->
  (In (z_shape z) [[]; [1]; [1; 224]] ->
   exists out st', occlusion_test batch_img model z st = (Ok out, st'))
  /\ (~ In (z_shape z) [[]; [1]; [1; 224]] ->
      fst (occlusion_test batch_img model z st) = Raise IndexError).
Proof.
  intros Hsize Hpos Hlen Hz. split.
  - intros Hin.
    assert (mask_fits (z_shape z) [1; 224] = true) as Hfit
        by (destruct Hin as [<-|[<-|[<-|[]]]]; reflexivity).
    destruct (occlusion_returns batch_img model classes z st Hsize Hpos Hlen
                Hfit) as (out & st' & Hrun & _).
    now exists out, st'.
  - intros Hout.
    assert (model (default [] (st !! nd_buf batch_img)) <> []) as Hmodel.
    { intros E. specialize (Hlen (default [] (st !! nd_buf batch_img))).
      rewrite E in Hlen. cbn in Hlen. lia. }
    assert (mask_fits (z_shape z) [1; 224] = false) as Hfit2.
    { destruct (mask_fits (z_shape z) [1; 224]) eqn:E; [|reflexivity].
      exfalso. apply Hout. apply mask_fits_cases in E.
      destruct E as [-> | [-> | ->]]; cbn [In]; auto. }
    destruct (mask_fits (z_shape z) [1; 224; 3]) eqn:Hfit3.
    + now apply occlusion_index_error_late.
    + now apply occlusion_index_error.
Qed.

Lemma occlusion_test_accepted_shapes_witness :
  (exists out st',
     occlusion_test Ex.batch Ex.toy Ex.zones_row_of_zeros Ex.st0 = (Ok out, st'))
  /\ fst (occlusion_test Ex.batch Ex.toy Ex.zones_whole_image Ex.st0)
     = Raise IndexError.
Proof.
  split.
  - apply (proj1 (occlusion_test_accepted_shapes Ex.batch Ex.toy 2
                    Ex.zones_row_of_zeros Ex.st0 eq_refl ltac:(lia)
                    toy_two_classes ltac:(discriminate))).
    right; right; left; reflexivity.
  - apply (proj2 (occlusion_test_accepted_shapes Ex.batch Ex.toy 2
                    Ex.zones_whole_image Ex.st0 eq_refl ltac:(lia)
                    toy_two_classes ltac:(discriminate))).
    unfold Ex.zones_whole_image. cbn [z_shape In].
    intros [H|[H|[H|[]]]]; discriminate.
Defined.

(** * The grid, painted *)

Lemma bboxes_of_rows_spec (rows : list (list Z)) :
  Forall (fun row => exists a b c d, row = [a; b; c; d]) rows ->
  exists bbs,
    bboxes_of_rows rows = Ok bbs
    /\ forall k bb, bbs !! k = Some bb ->
                    exists a b c d,
                      rows !! k = Some [a; b; c; d] /\ bb = (a, b, c, d).
Proof.
  induction 1 as [|row rest (a & b & c & d & ->) _ (bbs & Hrun & Hat)].
  - exists []. split; [reflexivity|]. intros k bb Hk. discriminate.
  - exists ((a, b, c, d) :: bbs). cbn [bboxes_of_rows bbox_of_row rbind].
    rewrite Hrun. split; [reflexivity|].
    intros [|k] bb Hk.
    + injection Hk as <-. now exists a, b, c, d.
    + exact (Hat k bb Hk).
Qed.

(** What [covers] says of a box with non-negative bounds, at a cell of the
    array. *)
Lemma covers_in_box (rows cols r c : nat) (x0 y0 x1 y1 : Z) :
  (r < rows)%nat -> (c < cols)%nat ->
  0 <= x0 -> 0 <= y0 -> 0 <= x1 -> 0 <= y1 ->
  covers rows cols (x0, y0, x1, y1) r c = true
  <-> in_box [x0; y0; x1; y1] (Z.of_nat r) (Z.of_nat c).
Proof.
  intros Hr Hc Hx0 Hy0 Hx1 Hy1. unfold covers, in_slice, slice_bound, in_box.
  replace (x0 <? 0) with false by lia. replace (y0 <? 0) with false by lia.
  replace (x1 <? 0) with false by lia. replace (y1 <? 0) with false by lia.
  rewrite !andb_true_iff, !Z.leb_le, !Z.ltb_lt. lia.
Qed.

(** X16: [print_bboxes] on the grid of [build_grid], stride 1.  The boxes
    hold [x0, y0, x1, y1] and [print_bboxes] takes [bb[0]:bb[2]] as the
    rows, so the x axis of the grid runs down the rows of the painted array:
    whatever its shape, its cell at row [r] and column [c], for [r] below
    the width and [c] below the height of the image, carries the label
    [(c / size) * nx + r / size + 1]. *)
Theorem grid_image_labels (size height width channels : Z)
    (rows cols r c : nat) :
  0 < size ->
  (r < rows)%nat -> (c < cols)%nat ->
  Z.of_nat r < width -> Z.of_nat c < height ->
  exists img,
    grid_image 1 size (height, width, channels) (rows, cols) = Ok img
    /\ cell2 img r c
       = Some (Z.of_nat c / size * Z.of_nat (origins width size)
               + Z.of_nat r / size + 1).
Proof.
  intros Hsize Hr Hc Hrw Hch. unfold grid_image.
  pose proof (build_grid_closed 1 size height width channels ltac:(lia))
    as Hrun.
  destruct (build_grid_lookup 1 size height width channels ltac:(lia) Hsize
              _ Hrun) as [Hlen Hat].
  destruct (grid_tile size height width channels _ (Z.of_nat r) (Z.of_nat c)
              Hsize Hrun ltac:(lia) ltac:(lia)) as (Hbox & Hin & Huniq).
  cbv zeta in Hbox, Hin, Huniq.
  rewrite Hrun. cbn [rbind].
  set (boxes := flat_map _ _) in *.
  set (k0 := (Z.to_nat (Z.of_nat c / size) * origins width size
              + Z.to_nat (Z.of_nat r / size))%nat) in *.
  assert (forall k row, boxes !! k = Some row ->
                        exists i j : nat,
                          row = box_at size (Z.of_nat i * size)
                                  (Z.of_nat j * size)) as Hrows.
  { intros k row Hk. pose proof (lookup_lt_Some _ _ _ Hk) as Hlt.
    rewrite Hlen in Hlt. rewrite (Hat k Hlt) in Hk. injection Hk as <-.
    rewrite Z.mul_1_r. now eexists _, _. }
  destruct (bboxes_of_rows_spec boxes) as (bbs & Hbbs & Hbb).
  { apply Forall_lookup. intros k row Hk.
    destruct (Hrows k row Hk) as (i & j & ->). unfold box_at.
    now eexists _, _, _, _. }
  rewrite Hbbs. cbn [rbind]. eexists. split; [reflexivity|].
  unfold print_bboxes. rewrite cell2_loop, cell2_zeros.
  rewrite !bool_decide_eq_true_2 by assumption. cbn [andb fmap option_fmap option_map].
  assert (0 <= Z.of_nat r / size) by (apply Z.div_pos; lia).
  assert (0 <= Z.of_nat c / size) by (apply Z.div_pos; lia).
  assert (forall k bb, bbs !! k = Some bb ->
                       exists row, boxes !! k = Some row
                                   /\ (covers rows cols bb r c = true
                                       <-> in_box row (Z.of_nat r) (Z.of_nat c)))
    as Hcov.
  { intros k bb Hk. destruct (Hbb k bb Hk) as (x0 & y0 & x1 & y1 & Hrow & ->).
    exists [x0; y0; x1; y1]. split; [exact Hrow|].
    destruct (Hrows k _ Hrow) as (i & j & E). unfold box_at in E.
    injection E as -> -> -> ->. apply covers_in_box; lia. }
  assert (length bbs = length boxes) as Hlenb.
  { apply Nat.le_antisymm.
    - destruct (Nat.le_gt_cases (length bbs) (length boxes)) as [Hle|Hgt];
        [exact Hle|exfalso].
      destruct (lookup_lt_is_Some_2 bbs (length boxes) Hgt) as [bb Hk].
      destruct (Hbb _ _ Hk) as (? & ? & ? & ? & Hrow & _).
      apply lookup_lt_Some in Hrow. lia.
    - clear -Hbbs. revert bbs Hbbs.
      induction boxes as [|row rest IH]; intros bbs Hbbs; [cbn; lia|].
      cbn [bboxes_of_rows] in Hbbs.
      destruct (bbox_of_row row); cbn [rbind] in Hbbs; [|discriminate].
      destruct (bboxes_of_rows rest) as [bbs'|]; cbn [rbind] in Hbbs;
        [|discriminate].
      injection Hbbs as <-. cbn [length]. specialize (IH bbs' eq_refl). lia. }
  destruct (lookup_lt_is_Some_2 bbs k0) as [bb0 Hbb0].
  { rewrite Hlenb. eapply lookup_lt_Some, Hbox. }
  rewrite (last_cover_unique rows cols bbs r c k0 bb0 Hbb0).
  - f_equal. unfold k0. rewrite Nat2Z.inj_add, Nat2Z.inj_mul.
    rewrite !Z2Nat.id by assumption. lia.
  - destruct (Hcov k0 bb0 Hbb0) as (row & Hrow & Hiff).
    apply Hiff. rewrite Hbox in Hrow. injection Hrow as <-. exact Hin.
  - intros j bb' Hj Hbb'. destruct (covers rows cols bb' r c) eqn:E;
      [exfalso|reflexivity].
    destruct (Hcov j bb' Hbb') as (row & Hrow & Hiff).
    apply Hiff in E. specialize (Huniq j row Hrow E). lia.
Qed.

Lemma grid_image_labels_witness :
  exists img,
    grid_image 1 2 (3, 5, 3) (5%nat, 3%nat) = Ok img
    /\ cell2 img 4 1 = Some (Z.of_nat 1 / 2 * Z.of_nat (origins 5 2)
                             + Z.of_nat 4 / 2 + 1).
Proof.
  exact (grid_image_labels 2 3 5 3 5 3 4 1 ltac:(lia) ltac:(lia) ltac:(lia)
           ltac:(lia) ltac:(lia)).
Defined.
